(** * The libmicrohttpd example event managers (epoll and kqueue)

    A shallow embedding of [src/examples/epoll_event_manager.c] and
    [src/examples/kqueue_event_manager.c].  The two files share their
    timeout list, their loop and their deferred free of watches; they
    differ in struct [MHD_Watch]'s interest fields, in the kernel calls
    of [watch_update] and [watch_free], in the computation of the wait
    budget and in the shape of a kernel event.  These four differences
    are gathered in a [Backend] record; everything else is written
    once over it.

    Pointers are addresses ([positive]) into two finite maps, one per
    struct; [NULL] is [None]; [malloc] hands out an address once and
    [free] removes it from its map.  A function returns [None] where
    the C program has no defined behaviour (it dereferences [NULL] or
    freed memory) or walks a cyclic list forever.  What [printf]
    reports is not modelled.  The kernel, the clock and the host are
    the environment: the kernel's answers and the clock are inputs,
    the host is a pair of functions from what it has seen to the calls
    it makes. *)

From stdpp Require Import gmap list.
From Stdlib Require Import ZArith Lia.

Local Open Scope Z_scope.

Abbreviation ptr := positive.

(** ** <sys/time.h> *)

Record timeval := Timeval { tv_sec : Z; tv_usec : Z }.

Definition timerisset (a : timeval) : bool :=
  negb (tv_sec a =? 0) || negb (tv_usec a =? 0).

(** [timercmp(a, b, <)] *)
Definition timercmp_lt (a b : timeval) : bool :=
  if tv_sec a =? tv_sec b then tv_usec a <? tv_usec b
  else tv_sec a <? tv_sec b.

Definition timersub (a b : timeval) : timeval :=
  let sec := tv_sec a - tv_sec b in
  let usec := tv_usec a - tv_usec b in
  if usec <? 0 then Timeval (sec - 1) (usec + 1000000) else Timeval sec usec.

Definition timer_zero : timeval := Timeval 0 0.

(** Microseconds since the epoch, and the timevals [gettimeofday] and
    the timer macros produce. *)
Definition usecs (a : timeval) : Z := tv_sec a * 1000000 + tv_usec a.

Definition normalized (a : timeval) : Prop := 0 <= tv_usec a < 1000000.

(** [int] is 32 bits wide; a conversion that does not fit wraps. *)
Definition to_int (z : Z) : Z := (z + 2147483648) mod 4294967296 - 2147483648.

(** ** <errno.h>, <sys/epoll.h>, <sys/event.h> *)

Definition EINTR : Z := 4.

Definition EPOLLIN : Z := 1.
Definition EPOLLOUT : Z := 4.

Inductive epoll_op := EPOLL_CTL_ADD | EPOLL_CTL_DEL | EPOLL_CTL_MOD.

Definition EVFILT_READ : Z := -1.
Definition EVFILT_WRITE : Z := -2.
Definition EV_ERROR : Z := 16384.

Inductive kevent_action := EV_ADD | EV_DELETE.

(** Modelled from the spec: [microhttpd.h] of this fork, which declares
    [MHD_WatchEvent], is not among the sources; the interest set is "a
    bitset of IN, OUT", taken here as two distinct bits. *)
Definition MHD_WATCH_IN : Z := 1.
Definition MHD_WATCH_OUT : Z := 2.

(** ** The structs *)

(** [struct MHD_Watch]; [M] is the type of its interest fields
    ([events] for epoll, [enable_read] and [enable_write] for kqueue).
    The back pointer [em] is left out: there is one event manager. *)
Record MHD_Watch (M : Type) := MkWatch {
  w_fd : Z;
  w_callback : nat;
  w_mhd_data : nat;
  w_mask : M;
  w_deleted : bool;
  w_next : option ptr
}.
Arguments MkWatch {M}.
Arguments w_fd {M}.
Arguments w_callback {M}.
Arguments w_mhd_data {M}.
Arguments w_mask {M}.
Arguments w_deleted {M}.
Arguments w_next {M}.

Record MHD_Timeout := MkTimeout {
  t_callback : nat;
  t_mhd_data : nat;
  trigger_time : timeval;
  t_next : option ptr;
  t_previous : option ptr
}.

(** What differs between the two files. *)
Record Backend := MkBackend {
  mask_t : Type;
  kernel_t : Type;
  event_t : Type;
  budget_t : Type;
  (** the interest fields as [watch_new] initialises them *)
  mask_init : mask_t;
  (** the registrations of a handle fresh from [epoll_create] or
      [kqueue]: none *)
  kernel_init : kernel_t;
  (** [watch_update] on the watch at an address, with the requested
      events and the kernel's answer: the new interest fields and the
      new kernel registrations *)
  b_watch_update :
    ptr -> MHD_Watch mask_t -> Z -> bool -> kernel_t -> mask_t * kernel_t;
  (** the kernel call that opens [watch_free] *)
  b_watch_release : ptr -> MHD_Watch mask_t -> bool -> kernel_t -> kernel_t;
  (** the wait budget, from the earliest armed timeout and the clock *)
  b_budget : option timeval -> timeval -> budget_t;
  (** a kernel event: its error flag, its cookie, its two filters *)
  ev_error : event_t -> bool;
  ev_udata : event_t -> ptr;
  ev_in : event_t -> bool;
  ev_out : event_t -> bool;
  (** not code, an observation of the kernel: the interest registered
      for a descriptor, in the form the watch keeps it *)
  b_registered : kernel_t -> Z -> mask_t
}.

(** ** The host

    A call of the host into the table of six functions, or of
    [event_manager_stop].  The booleans are the environment's answers
    during the call: [mem_ok] whether [malloc] succeeds, [ctl_ok]
    whether the kernel accepts the change. *)
Inductive api_call :=
  | CallWatchNew (fd events : Z) (cb data : nat) (mem_ok ctl_ok : bool)
  | CallWatchUpdate (w : ptr) (events : Z) (ctl_ok : bool)
  | CallWatchFree (w : ptr) (ctl_ok : bool)
  | CallTimeoutNew (tv : timeval) (cb data : nat) (mem_ok : bool)
  | CallTimeoutUpdate (t : ptr) (tv : option timeval)
  | CallTimeoutFree (t : ptr)
  | CallStop.

(** What an observer of a run sees, newest first. *)
Inductive log_entry (T : Type) :=
  | LApi (c : api_call) (ret : option ptr)
  | LWatchCb (w : ptr) (fd event : Z) (data : nat)
  | LTimeoutCb (t : ptr) (data : nat)
  | LWait (budget : T)
  | LFree (w : ptr)
  | LClose (fd : Z).
Arguments LApi {T}.
Arguments LWatchCb {T}.
Arguments LTimeoutCb {T}.
Arguments LWait {T}.
Arguments LFree {T}.
Arguments LClose {T}.

(** The callbacks of the host, by function pointer.  A callback sees the
    run so far and its arguments, and answers with the calls it makes. *)
Record Host (T : Type) := MkHost {
  watch_cb : nat -> list (log_entry T) -> ptr -> Z -> Z -> nat -> list api_call;
  timeout_cb : nat -> list (log_entry T) -> ptr -> nat -> list api_call
}.
Arguments watch_cb {T}.
Arguments timeout_cb {T}.

(** One turn of the loop as the environment decides it: the clock read
    before the wait, the outcome of the wait, the clock read after it. *)
Inductive wait_result (E : Type) :=
  | WaitFail (errno : Z)
  | WaitReady (events : list E).
Arguments WaitFail {E}.
Arguments WaitReady {E}.

Record turn (E : Type) := MkTurn {
  now_before : timeval;
  wait : wait_result E;
  now_after : timeval
}.
Arguments MkTurn {E}.
Arguments now_before {E}.
Arguments wait {E}.
Arguments now_after {E}.

Inductive loop_result (S : Type) :=
  | Returned (rc : Z) (st : S)
  | Blocked (st : S).
Arguments Returned {S}.
Arguments Blocked {S}.

Definition result_state {S : Type} (r : loop_result S) : S :=
  match r with Returned _ st => st | Blocked st => st end.

(** ** The event manager, over a backend *)

Section Reactor.

Variable B : Backend.

Abbreviation watch := (MHD_Watch (mask_t B)).
Abbreviation entry := (log_entry (budget_t B)).

(** The first five fields are [struct EventManager] ([em_fd] is
    [epoll_fd] or [kqueue_fd]; the [interface] table is the six calls
    of [api_call]).  Then the memory of the two structs, the next
    address [malloc] hands out, the kernel's registrations and the
    log. *)
Record State := MkState {
  em_fd : Z;
  timeout_head : option ptr;
  timeout_tail : option ptr;
  orphaned_watches : option ptr;
  stop : bool;
  watches : gmap ptr watch;
  timeouts : gmap ptr MHD_Timeout;
  brk : ptr;
  kernel : kernel_t B;
  log : list entry
}.

Definition set_em_fd (v : Z) (st : State) : State :=
  MkState v (timeout_head st) (timeout_tail st) (orphaned_watches st)
    (stop st) (watches st) (timeouts st) (brk st) (kernel st) (log st).

Definition set_timeout_head (v : option ptr) (st : State) : State :=
  MkState (em_fd st) v (timeout_tail st) (orphaned_watches st)
    (stop st) (watches st) (timeouts st) (brk st) (kernel st) (log st).

Definition set_timeout_tail (v : option ptr) (st : State) : State :=
  MkState (em_fd st) (timeout_head st) v (orphaned_watches st)
    (stop st) (watches st) (timeouts st) (brk st) (kernel st) (log st).

Definition set_orphaned_watches (v : option ptr) (st : State) : State :=
  MkState (em_fd st) (timeout_head st) (timeout_tail st) v
    (stop st) (watches st) (timeouts st) (brk st) (kernel st) (log st).

Definition set_stop (v : bool) (st : State) : State :=
  MkState (em_fd st) (timeout_head st) (timeout_tail st) (orphaned_watches st)
    v (watches st) (timeouts st) (brk st) (kernel st) (log st).

Definition set_watches (v : gmap ptr watch) (st : State) : State :=
  MkState (em_fd st) (timeout_head st) (timeout_tail st) (orphaned_watches st)
    (stop st) v (timeouts st) (brk st) (kernel st) (log st).

Definition set_timeouts (v : gmap ptr MHD_Timeout) (st : State) : State :=
  MkState (em_fd st) (timeout_head st) (timeout_tail st) (orphaned_watches st)
    (stop st) (watches st) v (brk st) (kernel st) (log st).

Definition set_brk (v : ptr) (st : State) : State :=
  MkState (em_fd st) (timeout_head st) (timeout_tail st) (orphaned_watches st)
    (stop st) (watches st) (timeouts st) v (kernel st) (log st).

Definition set_kernel (v : kernel_t B) (st : State) : State :=
  MkState (em_fd st) (timeout_head st) (timeout_tail st) (orphaned_watches st)
    (stop st) (watches st) (timeouts st) (brk st) v (log st).

Definition emit (e : entry) (st : State) : State :=
  MkState (em_fd st) (timeout_head st) (timeout_tail st) (orphaned_watches st)
    (stop st) (watches st) (timeouts st) (brk st) (kernel st) (e :: log st).

Definition set_w_mask (m : mask_t B) (w : watch) : watch :=
  MkWatch (w_fd w) (w_callback w) (w_mhd_data w) m (w_deleted w) (w_next w).

Definition set_w_deleted (d : bool) (w : watch) : watch :=
  MkWatch (w_fd w) (w_callback w) (w_mhd_data w) (w_mask w) d (w_next w).

Definition set_w_next (n : option ptr) (w : watch) : watch :=
  MkWatch (w_fd w) (w_callback w) (w_mhd_data w) (w_mask w) (w_deleted w) n.

Definition set_trigger_time (tv : timeval) (t : MHD_Timeout) : MHD_Timeout :=
  MkTimeout (t_callback t) (t_mhd_data t) tv (t_next t) (t_previous t).

Definition set_t_next (n : option ptr) (t : MHD_Timeout) : MHD_Timeout :=
  MkTimeout (t_callback t) (t_mhd_data t) (trigger_time t) n (t_previous t).

Definition set_t_previous (n : option ptr) (t : MHD_Timeout) : MHD_Timeout :=
  MkTimeout (t_callback t) (t_mhd_data t) (trigger_time t) (t_next t) n.

(** [event_manager_init], once the kernel handed out descriptor [fd]. *)
Definition event_manager_init (fd : Z) : State :=
  MkState fd None None None false ∅ ∅ 1%positive (kernel_init B) [].

(** *** Watches *)

Definition watch_update (p : ptr) (events : Z) (ctl_ok : bool) (st : State)
  : option State :=
  w ← watches st !! p;
  let '(m, k) := b_watch_update B p w events ctl_ok (kernel st) in
  Some (set_kernel k (set_watches (<[p := set_w_mask m w]> (watches st)) st)).

Definition watch_new (fd events : Z) (cb data : nat) (mem_ok ctl_ok : bool)
  (st : State) : option (option ptr * State) :=
  if mem_ok then
    let p := brk st in
    let w := MkWatch fd cb data (mask_init B) false None in
    st' ← watch_update p events ctl_ok
             (set_brk (Pos.succ p) (set_watches (<[p := w]> (watches st)) st));
    Some (Some p, st')
  else Some (None, st).

Definition watch_free (p : ptr) (ctl_ok : bool) (st : State) : option State :=
  w ← watches st !! p;
  let k := b_watch_release B p w ctl_ok (kernel st) in
  let w1 := set_w_deleted true w in
  let w2 :=
    match orphaned_watches st with
    | Some _ => set_w_next (orphaned_watches st) w1
    | None => w1
    end in
  Some (set_orphaned_watches (Some p)
          (set_kernel k (set_watches (<[p := w2]> (watches st)) st))).

(** *** Timeouts *)

Definition timeout_new (tv : timeval) (cb data : nat) (mem_ok : bool)
  (st : State) : option ptr * State :=
  if mem_ok then
    let p := brk st in
    let st1 := set_brk (Pos.succ p) st in
    match timeout_head st with
    | None =>
        (Some p,
         set_timeouts (<[p := MkTimeout cb data tv None None]> (timeouts st))
           (set_timeout_tail (Some p) (set_timeout_head (Some p) st1)))
    | Some _ =>
        (Some p,
         set_timeouts
           (<[p := MkTimeout cb data tv None (timeout_tail st)]> (timeouts st))
           (set_timeout_tail (Some p) st1))
    end
  else (None, st).

(** [timeout->next->previous = v] and [timeout->previous->next = v] *)
Definition store_previous (q : option ptr) (v : option ptr) (st : State)
  : option State :=
  a ← q; t ← timeouts st !! a;
  Some (set_timeouts (<[a := set_t_previous v t]> (timeouts st)) st).

Definition store_next (q : option ptr) (v : option ptr) (st : State)
  : option State :=
  a ← q; t ← timeouts st !! a;
  Some (set_timeouts (<[a := set_t_next v t]> (timeouts st)) st).

Definition timeout_free (p : ptr) (st : State) : option State :=
  t ← timeouts st !! p;
  st' ←
    (if bool_decide (timeout_head st = Some p) &&
        bool_decide (timeout_tail st = Some p)
     then Some (set_timeout_tail None (set_timeout_head None st))
     else if bool_decide (timeout_head st = Some p)
     then store_previous (t_next t) None (set_timeout_head (t_next t) st)
     else if bool_decide (timeout_tail st = Some p)
     then st1 ← store_next (t_previous t) None st;
          Some (set_timeout_tail (t_previous t) st1)
     else st1 ← store_next (t_previous t) (t_next t) st;
          store_previous (t_next t) (t_previous t) st1);
  Some (set_timeouts (delete p (timeouts st')) st').

Definition timeout_update (p : ptr) (tv : option timeval) (st : State)
  : option State :=
  t ← timeouts st !! p;
  let v := match tv with Some v => v | None => timer_zero end in
  Some (set_timeouts (<[p := set_trigger_time v t]> (timeouts st)) st).

Definition event_manager_stop (st : State) : State := set_stop true st.

(** *** A call of the host, and a callback *)

Definition exec_call (c : api_call) (st : State) : option State :=
  match c with
  | CallWatchNew fd events cb data mem_ok ctl_ok =>
      '(r, st') ← watch_new fd events cb data mem_ok ctl_ok st;
      Some (emit (LApi c r) st')
  | CallWatchUpdate p events ctl_ok =>
      st' ← watch_update p events ctl_ok st; Some (emit (LApi c None) st')
  | CallWatchFree p ctl_ok =>
      st' ← watch_free p ctl_ok st; Some (emit (LApi c None) st')
  | CallTimeoutNew tv cb data mem_ok =>
      let '(r, st') := timeout_new tv cb data mem_ok st in
      Some (emit (LApi c r) st')
  | CallTimeoutUpdate p tv =>
      st' ← timeout_update p tv st; Some (emit (LApi c None) st')
  | CallTimeoutFree p =>
      st' ← timeout_free p st; Some (emit (LApi c None) st')
  | CallStop => Some (emit (LApi c None) (event_manager_stop st))
  end.

Fixpoint run_calls (cs : list api_call) (st : State) : option State :=
  match cs with
  | [] => Some st
  | c :: cs' => st' ← exec_call c st; run_calls cs' st'
  end.

Variable host : Host (budget_t B).

(** [watch->callback (watch, watch->fd, event, watch->mhd_data)] *)
Definition invoke_watch (p : ptr) (event : Z) (st : State) : option State :=
  w ← watches st !! p;
  let st1 := emit (LWatchCb p (w_fd w) event (w_mhd_data w)) st in
  run_calls
    (watch_cb host (w_callback w) (log st1) p (w_fd w) event (w_mhd_data w)) st1.

(** [temp->callback (temp, temp->mhd_data)] *)
Definition invoke_timeout (p : ptr) (st : State) : option State :=
  t ← timeouts st !! p;
  let st1 := emit (LTimeoutCb p (t_mhd_data t)) st in
  run_calls (timeout_cb host (t_callback t) (log st1) p (t_mhd_data t)) st1.

(** *** The loop *)

(** The scan for the earliest armed timeout: [found] and [tv] of the
    source are one [option].  A walk of more steps than there are
    timeouts allocated has come back to a node: the list is cyclic and
    the C loop does not end. *)
Fixpoint earliest_from (fuel : nat) (h : gmap ptr MHD_Timeout)
  (t : option ptr) (found : option timeval) : option (option timeval) :=
  match t with
  | None => Some found
  | Some p =>
      match fuel with
      | O => None
      | S f =>
          tm ← h !! p;
          earliest_from f h (t_next tm)
            (if timerisset (trigger_time tm) &&
                match found with
                | None => true
                | Some tv => timercmp_lt (trigger_time tm) tv
                end
             then Some (trigger_time tm) else found)
      end
  end.

Definition earliest (st : State) : option (option timeval) :=
  earliest_from (S (size (timeouts st))) (timeouts st) (timeout_head st) None.

(** The sweep after a wait that returned no event.  [t_next tm] is read
    before the callback runs, as [timeout = timeout->next] is. *)
Fixpoint sweep_from (fuel : nat) (now : timeval) (t : option ptr) (st : State)
  : option State :=
  match t with
  | None => Some st
  | Some p =>
      match fuel with
      | O => None
      | S f =>
          tm ← timeouts st !! p;
          if timercmp_lt (trigger_time tm) now then
            st1 ← invoke_timeout p
                    (set_timeouts
                       (<[p := set_trigger_time timer_zero tm]> (timeouts st)) st);
            sweep_from f now (t_next tm) st1
          else sweep_from f now (t_next tm) st
      end
  end.

Definition sweep (now : timeval) (st : State) : option State :=
  sweep_from (S (size (timeouts st))) now (timeout_head st) st.

(** The body of the [for] loop over the events of one wait. *)
Definition dispatch_event (e : event_t B) (st : State) : option State :=
  if ev_error B e then Some st
  else
    let p := ev_udata B e in
    w ← watches st !! p;
    st1 ← (if negb (w_deleted w) && ev_in B e
           then invoke_watch p MHD_WATCH_IN st else Some st);
    w1 ← watches st1 !! p;
    if negb (w_deleted w1) && ev_out B e
    then invoke_watch p MHD_WATCH_OUT st1 else Some st1.

Fixpoint dispatch (events : list (event_t B)) (st : State) : option State :=
  match events with
  | [] => Some st
  | e :: events' => st' ← dispatch_event e st; dispatch events' st'
  end.

(** The release of the orphaned watches. *)
Fixpoint reap_from (fuel : nat) (w : option ptr) (st : State) : option State :=
  match w with
  | None => Some st
  | Some p =>
      match fuel with
      | O => None
      | S f =>
          tmp ← watches st !! p;
          reap_from f (w_next tmp)
            (emit (LFree p) (set_watches (delete p (watches st)) st))
      end
  end.

Definition reap (st : State) : option State :=
  st' ← reap_from (S (size (watches st))) (orphaned_watches st) st;
  Some (set_orphaned_watches None st').

Inductive turn_result :=
  | Continue (st : State)
  | Return (rc : Z) (st : State).

(** One pass through the body of [while (!em->stop)]. *)
Definition loop_turn (tn : turn (event_t B)) (st : State) : option turn_result :=
  found ← earliest st;
  let st1 := emit (LWait (b_budget B found (now_before tn))) st in
  match wait tn with
  | WaitFail errno =>
      if errno =? EINTR then Some (Continue st1) else Some (Return (-1) st1)
  | WaitReady events =>
      st2 ← match events with
            | [] => sweep (now_after tn) st1
            | _ :: _ => Some st1
            end;
      st3 ← dispatch events st2;
      st4 ← reap st3;
      Some (Continue st4)
  end.

(** [while (!em->stop) ...; close (fd); em->fd = -1; return 0;] over the
    turns the environment has in store; [Blocked] when they are used up
    and the loop is still waiting. *)
Fixpoint loop_from (script : list (turn (event_t B))) (st : State)
  : option (loop_result State) :=
  if stop st
  then Some (Returned 0 (set_em_fd (-1) (emit (LClose (em_fd st)) st)))
  else
    match script with
    | [] => Some (Blocked st)
    | tn :: script' =>
        r ← loop_turn tn st;
        match r with
        | Continue st' => loop_from script' st'
        | Return rc st' => Some (Returned rc st')
        end
    end.

Definition event_manager_loop (script : list (turn (event_t B))) (st : State)
  : option (loop_result State) :=
  let st0 := set_stop false st in
  if em_fd st0 <? 0 then Some (Returned (-1) st0) else loop_from script st0.

End Reactor.

Arguments MkState {B}.
Arguments em_fd {B}.
Arguments timeout_head {B}.
Arguments timeout_tail {B}.
Arguments orphaned_watches {B}.
Arguments stop {B}.
Arguments watches {B}.
Arguments timeouts {B}.
Arguments brk {B}.
Arguments kernel {B}.
Arguments log {B}.
Arguments Continue {B}.
Arguments Return {B}.

(** ** The epoll backend *)

Module Epoll.

Record epoll_event := MkEvent { events : Z; data_ptr : ptr }.

(** Modelled from the spec: the kernel behind [epoll_ctl] is not part of
    the sources.  "[apply] effects the transition in the kernel; the
    cookie is stored opaquely; fails with [BackendError]": an accepted
    call records or removes the descriptor's event, a refused one
    returns -1 and changes nothing. *)
Definition epoll_ctl (k : gmap Z epoll_event) (op : epoll_op) (fd : Z)
  (event : epoll_event) (ok : bool) : Z * gmap Z epoll_event :=
  if ok then
    (0, match op with
        | EPOLL_CTL_ADD | EPOLL_CTL_MOD => <[fd := event]> k
        | EPOLL_CTL_DEL => delete fd k
        end)
  else (-1, k).

Definition registered (k : gmap Z epoll_event) (fd : Z) : Z :=
  match k !! fd with Some e => events e | None => 0 end.

Definition watch_update (p : ptr) (w : MHD_Watch Z) (evs : Z) (ok : bool)
  (k : gmap Z epoll_event) : Z * gmap Z epoll_event :=
  let event :=
    MkEvent (Z.lor (if Z.land evs MHD_WATCH_IN =? 0 then 0 else EPOLLIN)
                   (if Z.land evs MHD_WATCH_OUT =? 0 then 0 else EPOLLOUT)) p in
  if events event =? w_mask w then (w_mask w, k)
  else
    let op :=
      if (0 =? w_mask w) && negb (events event =? 0) then EPOLL_CTL_ADD
      else if negb (w_mask w =? 0) && (0 =? events event) then EPOLL_CTL_DEL
      else EPOLL_CTL_MOD in
    let '(r, k') := epoll_ctl k op (w_fd w) event ok in
    (* r < 0 is reported with printf; the assignment follows either way *)
    (events event, k').

(** The [struct epoll_event] that [watch_free] passes is not
    initialised; [EPOLL_CTL_DEL] does not read it. *)
Definition watch_release (p : ptr) (w : MHD_Watch Z) (ok : bool)
  (k : gmap Z epoll_event) : gmap Z epoll_event :=
  if w_mask w =? 0 then k
  else snd (epoll_ctl k EPOLL_CTL_DEL (w_fd w) (MkEvent 0 p) ok).

(** [ms_to_sleep].  The sum is computed in [long], taken here as exact,
    and converted to [int]. *)
Definition ms_to_sleep (found : option timeval) (now : timeval) : Z :=
  match found with
  | None => 10000
  | Some tv =>
      if timercmp_lt tv now then 0
      else
        let remaining := timersub tv now in
        to_int (tv_sec remaining * 1000 + Z.quot (tv_usec remaining) 1000)
  end.

Definition backend : Backend :=
  {| mask_t := Z;
     kernel_t := gmap Z epoll_event;
     event_t := epoll_event;
     budget_t := Z;
     mask_init := 0;
     kernel_init := ∅;
     b_watch_update := watch_update;
     b_watch_release := watch_release;
     b_budget := ms_to_sleep;
     ev_error := fun _ => false;
     ev_udata := data_ptr;
     ev_in := fun e => negb (Z.land (events e) EPOLLIN =? 0);
     ev_out := fun e => negb (Z.land (events e) EPOLLOUT =? 0);
     b_registered := registered |}.

End Epoll.

(** ** The kqueue backend *)

Module Kqueue.

(** The two bit fields [enable_read] and [enable_write] of the watch. *)
Record enables := MkEnables { enable_read : bool; enable_write : bool }.

Record timespec := MkTimespec { ts_sec : Z; ts_nsec : Z }.

(** [struct kevent]: as a change, [flags] is [EV_ADD] or [EV_DELETE]. *)
Record change := MkChange {
  c_ident : Z; c_filter : Z; c_flags : kevent_action; c_udata : ptr
}.

Record kevent_t := MkKevent {
  ident : Z; filter : Z; flags : Z; data : Z; udata : ptr
}.

Definition apply_change (k : gmap (Z * Z) ptr) (c : change) : gmap (Z * Z) ptr :=
  match c_flags c with
  | EV_ADD => <[(c_ident c, c_filter c) := c_udata c]> k
  | EV_DELETE => delete (c_ident c, c_filter c) k
  end.

(** Modelled from the spec: the kernel behind [kevent] is not part of
    the sources.  The changes are "batched into a single change-list
    call" that "fails with [BackendError]": an accepted call applies the
    changes in order, a refused one returns -1 and applies none. *)
Definition kevent (k : gmap (Z * Z) ptr) (change_set : list change) (ok : bool)
  : Z * gmap (Z * Z) ptr :=
  if ok then (0, foldl apply_change k change_set) else (-1, k).

Definition registered (k : gmap (Z * Z) ptr) (fd : Z) : enables :=
  MkEnables (bool_decide (is_Some (k !! (fd, EVFILT_READ))))
            (bool_decide (is_Some (k !! (fd, EVFILT_WRITE)))).

Definition watch_update (p : ptr) (w : MHD_Watch enables) (evs : Z) (ok : bool)
  (k : gmap (Z * Z) ptr) : enables * gmap (Z * Z) ptr :=
  let er := negb (Z.land evs MHD_WATCH_IN =? 0) in
  let change_read :=
    if Bool.eqb er (enable_read (w_mask w)) then []
    else [MkChange (w_fd w) EVFILT_READ (if er then EV_ADD else EV_DELETE) p] in
  let ew := negb (Z.land evs MHD_WATCH_OUT =? 0) in
  let change_write :=
    if Bool.eqb ew (enable_write (w_mask w)) then []
    else [MkChange (w_fd w) EVFILT_WRITE (if ew then EV_ADD else EV_DELETE) p] in
  let '(r, k') := kevent k (change_read ++ change_write) ok in
  (* both bit fields were assigned before the call *)
  (MkEnables
     (if Bool.eqb er (enable_read (w_mask w)) then enable_read (w_mask w) else er)
     (if Bool.eqb ew (enable_write (w_mask w)) then enable_write (w_mask w) else ew),
   k').

Definition watch_release (p : ptr) (w : MHD_Watch enables) (ok : bool)
  (k : gmap (Z * Z) ptr) : gmap (Z * Z) ptr :=
  let change_read :=
    if enable_read (w_mask w)
    then [MkChange (w_fd w) EVFILT_READ EV_DELETE p] else [] in
  let change_write :=
    if enable_write (w_mask w)
    then [MkChange (w_fd w) EVFILT_WRITE EV_DELETE p] else [] in
  match change_read ++ change_write with
  | [] => k
  | change_set => snd (kevent k change_set ok)
  end.

(** The [struct timespec ts] handed to [kevent]. *)
Definition wait_ts (found : option timeval) (now : timeval) : timespec :=
  match found with
  | Some tv =>
      if timercmp_lt tv now then MkTimespec 0 0
      else
        let remaining := timersub tv now in
        MkTimespec (tv_sec remaining) (tv_usec remaining * 1000)
  | None => MkTimespec 1 0
  end.

Definition backend : Backend :=
  {| mask_t := enables;
     kernel_t := gmap (Z * Z) ptr;
     event_t := kevent_t;
     budget_t := timespec;
     mask_init := MkEnables false false;
     kernel_init := ∅;
     b_watch_update := watch_update;
     b_watch_release := watch_release;
     b_budget := wait_ts;
     ev_error := fun e => negb (Z.land (flags e) EV_ERROR =? 0);
     ev_udata := udata;
     ev_in := fun e => filter e =? EVFILT_READ;
     ev_out := fun e => filter e =? EVFILT_WRITE;
     b_registered := registered |}.

End Kqueue.

Inductive backend_kind := EPOLL | KQUEUE.

Definition backend_of (k : backend_kind) : Backend :=
  match k with EPOLL => Epoll.backend | KQUEUE => Kqueue.backend end.

(** ** Observations of a run *)

Section Observations.

Variable B : Backend.
Variable host : Host (budget_t B).

(** The C variable [ready]. *)
Definition ready {E : Type} (r : wait_result E) : Z :=
  match r with
  | WaitFail _ => -1
  | WaitReady events => Z.of_nat (length events)
  end.

Definition turn_state (r : turn_result B) : State B :=
  match r with Continue st => st | Return _ st => st end.

(** The timeouts reached from [timeout_head] by [next]. *)
Fixpoint walk_from (fuel : nat) (h : gmap ptr MHD_Timeout) (t : option ptr)
  : option (list ptr) :=
  match t with
  | None => Some []
  | Some p =>
      match fuel with
      | O => None
      | S f => tm ← h !! p; l ← walk_from f h (t_next tm); Some (p :: l)
      end
  end.

Definition timeout_list (st : State B) : option (list ptr) :=
  walk_from (S (size (timeouts st))) (timeouts st) (timeout_head st).

(** The timeouts whose callback ran, and the watches whose callback
    ran, newest first. *)
Definition timeout_calls (l : list (log_entry (budget_t B))) : list ptr :=
  omap (fun e => match e with LTimeoutCb t _ => Some t | _ => None end) l.

Definition watch_calls (l : list (log_entry (budget_t B))) : list ptr :=
  omap (fun e => match e with LWatchCb w _ _ _ => Some w | _ => None end) l.

(** The watches handed to [watch_free], newest first. *)
Definition freed_list (l : list (log_entry (budget_t B))) : list ptr :=
  omap (fun e => match e with
                 | LApi (CallWatchFree w _) _ => Some w
                 | _ => None
                 end) l.

(** The log is newest first: what happened after an entry stands before
    it. *)
Definition no_call_after_free (l : list (log_entry (budget_t B))) : Prop :=
  forall l1 l2 w ok r,
    l = l1 ++ LApi (CallWatchFree w ok) r :: l2 -> w ∉ watch_calls l1.

(** What the application does with an event manager: it calls into the
    table, or it enters the loop. *)
Inductive app_step :=
  | AppCall (c : api_call)
  | AppLoop (script : list (turn (event_t B))).

Fixpoint run_app (steps : list app_step) (st : State B) : option (State B) :=
  match steps with
  | [] => Some st
  | AppCall c :: steps' => st' ← exec_call B c st; run_app steps' st'
  | AppLoop script :: steps' =>
      r ← event_manager_loop B host script st; run_app steps' (result_state r)
  end.

(** The host contract on watches: a descriptor carries one live watch,
    and only live handles are passed back. *)
Definition live (st : State B) (p : ptr) : bool :=
  match watches st !! p with
  | Some w => negb (w_deleted w)
  | None => false
  end.

Definition fd_free (st : State B) (fd : Z) : bool :=
  forallb (fun pw => w_deleted (snd pw) || negb (w_fd (snd pw) =? fd))
          (map_to_list (watches st)).

Definition legal (st : State B) (c : api_call) : bool :=
  match c with
  | CallWatchNew fd _ _ _ _ _ => fd_free st fd
  | CallWatchUpdate p _ _ => live st p
  | CallWatchFree p _ => live st p
  | _ => true
  end.

Fixpoint contract (cs : list api_call) (st : State B) : bool :=
  match cs with
  | [] => true
  | c :: cs' =>
      legal st c &&
      match exec_call B c st with
      | Some st' => contract cs' st'
      | None => true
      end
  end.

(** The kernel accepted the change of every call. *)
Definition ctl_accepted (c : api_call) : bool :=
  match c with
  | CallWatchNew _ _ _ _ _ ok => ok
  | CallWatchUpdate _ _ ok => ok
  | CallWatchFree _ ok => ok
  | _ => true
  end.

Definition mask_parity (st : State B) : Prop :=
  forall p w, watches st !! p = Some w -> w_deleted w = false ->
    b_registered B (kernel st) (w_fd w) = w_mask w.

(** No tombstoned watch is left in memory. *)
Definition no_tombstone (st : State B) : Prop :=
  forall p w, watches st !! p = Some w -> w_deleted w = false.

End Observations.

Arguments ready {E}.
Arguments turn_state {B}.
Arguments timeout_list {B}.
Arguments timeout_calls {B}.
Arguments watch_calls {B}.
Arguments freed_list {B}.
Arguments no_call_after_free {B}.
Arguments AppCall {B}.
Arguments AppLoop {B}.
Arguments live {B}.
Arguments fd_free {B}.
Arguments legal {B}.
Arguments mask_parity {B}.
Arguments no_tombstone {B}.

(** The time that remains from [now] until [t], in milliseconds rounded
    down and in nanoseconds, and none once [t] has passed. *)
Definition remaining_ms (t now : timeval) : Z :=
  Z.max 0 ((usecs t - usecs now) / 1000).

Definition remaining_ns (t now : timeval) : Z :=
  Z.max 0 ((usecs t - usecs now) * 1000).

Definition nanos (ts : Kqueue.timespec) : Z :=
  Kqueue.ts_sec ts * 1000000000 + Kqueue.ts_nsec ts.

(** ** Invariants of the reachable states *)

Section Invariants.

Variable B : Backend.

(** The invariant: parity, one live watch per descriptor, nothing
    registered for a descriptor without a live watch, and no watch at
    or above the next address of [malloc]. *)
Record parity_inv (st : State B) : Prop := {
  inv_parity : mask_parity st;
  inv_distinct : forall p q w w',
    watches st !! p = Some w -> watches st !! q = Some w' ->
    w_deleted w = false -> w_deleted w' = false -> w_fd w = w_fd w' -> p = q;
  inv_idle : forall fd,
    (forall p w, watches st !! p = Some w -> w_deleted w = false ->
                 w_fd w <> fd) ->
    b_registered B (kernel st) fd = mask_init B;
  inv_fresh : forall p, is_Some (watches st !! p) -> (p < brk st)%positive
}.

(** [no_call_after_free], entry by entry: when a watch callback is
    logged, its watch is not among those freed before. *)
Fixpoint calls_precede_frees (l : list (log_entry (budget_t B))) : Prop :=
  match l with
  | [] => True
  | e :: l' =>
      match e with
      | LWatchCb w _ _ _ => w ∉ freed_list l'
      | _ => True
      end /\ calls_precede_frees l'
  end.

(** The entries that are neither a [watch_free] nor a watch callback. *)
Definition plain_entry (e : log_entry (budget_t B)) : Prop :=
  match e with
  | LApi (CallWatchFree _ _) _ => False
  | LWatchCb _ _ _ _ => False
  | _ => True
  end.

(** A watch handed to [watch_free] is tombstoned for as long as it is
    in memory, and [malloc] never hands its address out again. *)
Record free_inv (st : State B) : Prop := {
  fi_fresh : forall p, is_Some (watches st !! p) -> (p < brk st)%positive;
  fi_tomb : forall p, p ∈ freed_list (log st) ->
    (p < brk st)%positive /\
    forall w, watches st !! p = Some w -> w_deleted w = true;
  fi_order : calls_precede_frees (log st)
}.

(** The list [l] of addresses met from [o] by [next]. *)
Fixpoint chain (h : gmap ptr (MHD_Watch (mask_t B))) (o : option ptr)
  (l : list ptr) : Prop :=
  match l with
  | [] => o = None
  | p :: l' => o = Some p /\ exists w, h !! p = Some w /\ chain h (w_next w) l'
  end.

(** The orphan list holds the tombstoned watches, each once; a live
    watch has no [next]; a tombstoned watch was handed to
    [watch_free]. *)
Record reap_inv (st : State B) : Prop := {
  ri_chain : exists l,
    chain (watches st) (orphaned_watches st) l /\ NoDup l /\
    forall p, p ∈ l <->
      exists w, watches st !! p = Some w /\ w_deleted w = true;
  ri_next : forall p w,
    watches st !! p = Some w -> w_deleted w = false -> w_next w = None;
  ri_logged : forall p w,
    watches st !! p = Some w -> w_deleted w = true -> p ∈ freed_list (log st);
  ri_fresh : forall p, is_Some (watches st !! p) -> (p < brk st)%positive
}.

(** As long as the host frees no watch twice. *)
Definition reap_ok (st : State B) : Prop :=
  NoDup (freed_list (log st)) -> reap_inv st.

End Invariants.

Arguments parity_inv {B}.
Arguments calls_precede_frees {B}.
Arguments plain_entry {B}.
Arguments free_inv {B}.
Arguments chain {B}.
Arguments reap_inv {B}.
Arguments reap_ok {B}.
Arguments inv_parity {B st}.
Arguments inv_distinct {B st}.
Arguments inv_idle {B st}.
Arguments inv_fresh {B st}.
Arguments fi_fresh {B st}.
Arguments fi_tomb {B st}.
Arguments fi_order {B st}.
Arguments ri_chain {B st}.
Arguments ri_next {B st}.
Arguments ri_logged {B st}.
Arguments ri_fresh {B st}.

(** ** Hosts and states for the examples *)

(** A host whose callbacks call nothing. *)
Definition quiet (T : Type) : Host T :=
  MkHost T (fun _ _ _ _ _ _ => []) (fun _ _ _ _ => []).

(** A host whose watch callback 1 frees the watch at address 2, whose
    watch callback 2 stops the loop, and whose other callbacks call
    nothing. *)
Definition busy (T : Type) : Host T :=
  MkHost T
    (fun cb _ _ _ _ _ =>
       match cb with
       | 1%nat => [CallWatchFree 2 true]
       | 2%nat => [CallStop]
       | _ => []
       end)
    (fun _ _ _ _ => []).

(** An epoll manager on descriptor 3 with a readable watch on
    descriptor 5 (callback 0) and a timeout due at second 5. *)
Definition demo_calls : list api_call :=
  [CallWatchNew 5 MHD_WATCH_IN 0 0 true true;
   CallTimeoutNew (Timeval 5 0) 0 0 true].

Definition demo_state : State Epoll.backend :=
  Eval vm_compute in
  default (event_manager_init Epoll.backend 3)
    (run_calls Epoll.backend demo_calls (event_manager_init Epoll.backend 3)).

(** A turn at second 10 in which descriptor 5 is readable. *)
Definition demo_turn : turn Epoll.epoll_event :=
  MkTurn (Timeval 10 0) (WaitReady [Epoll.MkEvent EPOLLIN 1]) (Timeval 10 0).

Definition demo_after : turn_result Epoll.backend :=
  Eval vm_compute in
  default (Continue demo_state)
    (loop_turn Epoll.backend (quiet Z) demo_turn demo_state).

(** An epoll manager with a readable watch on descriptor 6 whose
    callback (callback 2 of [busy]) stops the loop, and the state in
    which the loop then returns. *)
Definition stop_state : State Epoll.backend :=
  Eval vm_compute in
  default (event_manager_init Epoll.backend 3)
    (run_calls Epoll.backend [CallWatchNew 6 MHD_WATCH_IN 2 0 true true]
       (event_manager_init Epoll.backend 3)).

Definition stop_turn : turn Epoll.epoll_event :=
  MkTurn (Timeval 1 0) (WaitReady [Epoll.MkEvent EPOLLIN 1]) (Timeval 1 0).

Definition stopped_state : State Epoll.backend :=
  Eval vm_compute in
  match event_manager_loop Epoll.backend (busy Z) [stop_turn] stop_state with
  | Some r => result_state r
  | None => stop_state
  end.



(** Two readable watches; the callback of the first (callback 1 of
    [busy]) frees the second, and both are reported ready by one
    wait. *)
Definition free_calls : list (app_step Epoll.backend) :=
  [AppCall (CallWatchNew 5 MHD_WATCH_IN 1 0 true true);
   AppCall (CallWatchNew 6 MHD_WATCH_IN 0 0 true true)].

Definition free_turn : turn Epoll.epoll_event :=
  MkTurn (Timeval 1 0)
    (WaitReady [Epoll.MkEvent EPOLLIN 1; Epoll.MkEvent EPOLLIN 2])
    (Timeval 1 0).

Definition free_start : State Epoll.backend :=
  Eval vm_compute in
  default (event_manager_init Epoll.backend 3)
    (run_app Epoll.backend (busy Z) free_calls
       (event_manager_init Epoll.backend 3)).

Definition free_state : State Epoll.backend :=
  Eval vm_compute in
  default free_start
    (run_app Epoll.backend (busy Z) [AppLoop (B := Epoll.backend) [free_turn]] free_start).



Definition eintr_turn : turn Epoll.epoll_event :=
  MkTurn (Timeval 1 0) (WaitFail EINTR) (Timeval 1 0).



(** ** Further observations and states *)

(** No timeout in memory has a successor. *)
Definition next_null (h : gmap ptr MHD_Timeout) : Prop :=
  forall p t, h !! p = Some t -> t_next t = None.

(** The log since [l0] shows a call of [event_manager_stop] whenever
    [stop] is set. *)
Definition stop_logged {B : Backend} (l0 : list (log_entry (budget_t B)))
  (s : State B) : Prop :=
  exists new, log s = new ++ l0 /\
    (stop s = true -> exists r, LApi CallStop r ∈ new).

(** The watch callbacks that ran, each with its event, newest first. *)
Definition watch_events {B : Backend} (l : list (log_entry (budget_t B)))
  : list (ptr * Z) :=
  omap (fun e => match e with
                 | LWatchCb w _ ev _ => Some (w, ev)
                 | _ => None
                 end) l.

(** The watches that [watch_new] returned, newest first. *)
Definition watch_news {B : Backend} (l : list (log_entry (budget_t B)))
  : list ptr :=
  omap (fun e => match e with
                 | LApi (CallWatchNew _ _ _ _ _ _) (Some w) => Some w
                 | _ => None
                 end) l.

(** Every watch that [watch_new] returned and [watch_free] was not
    handed is in memory and not tombstoned. *)
Definition handles_valid {B : Backend} (s : State B) : Prop :=
  forall q, q ∈ watch_news (log s) -> q ∉ freed_list (log s) ->
    exists w, watches s !! q = Some w /\ w_deleted w = false.

Definition handles_ok {B : Backend} (s : State B) : Prop :=
  NoDup (freed_list (log s)) -> reap_inv s /\ handles_valid s.

(** The state after one event for the second watch of [free_start]
    with both filters ready. *)
Definition both_event : Epoll.epoll_event :=
  Epoll.MkEvent (Z.lor EPOLLIN EPOLLOUT) 2.

Definition both_after : State Epoll.backend :=
  Eval vm_compute in
  default free_start
    (dispatch_event Epoll.backend (busy Z) both_event free_start).

(** A hand-built manager with two timeouts linked both ways, the first
    due at second 9 and the second at second 4. *)
Definition two_timeouts : State Epoll.backend :=
  MkState 3 (Some 1%positive) (Some 2%positive) None false ∅
    (<[1%positive := MkTimeout 0 0 (Timeval 9 0) (Some 2%positive) None]>
       (<[2%positive := MkTimeout 0 0 (Timeval 4 0) None (Some 1%positive)]> ∅))
    3%positive ∅ [].

(** Two timeouts created through the table. *)
Definition two_news : list (app_step Epoll.backend) :=
  [AppCall (CallTimeoutNew (Timeval 9 0) 0 0 true);
   AppCall (CallTimeoutNew (Timeval 4 0) 0 0 true)].

Definition two_news_state : State Epoll.backend :=
  Eval vm_compute in
  default (event_manager_init Epoll.backend 3)
    (run_app Epoll.backend (quiet Z) two_news
       (event_manager_init Epoll.backend 3)).

(** [stop_state] after its watch was updated to IN and OUT. *)
Definition updated_state : State (backend_of EPOLL) :=
  Eval vm_compute in
  default stop_state
    (watch_update Epoll.backend 1 (Z.lor MHD_WATCH_IN MHD_WATCH_OUT) true
       stop_state).

(** [stop_state] after its watch was freed once, and twice. *)
Definition freed_once : State Epoll.backend :=
  Eval vm_compute in
  default stop_state (watch_free Epoll.backend 1 true stop_state).

Definition freed_twice : State Epoll.backend :=
  Eval vm_compute in
  default stop_state (watch_free Epoll.backend 1 true freed_once).

(** A watch on descriptor 5 created and freed, with the kernel
    accepting. *)
Definition released_calls : list api_call :=
  [CallWatchNew 5 (Z.lor MHD_WATCH_IN MHD_WATCH_OUT) 0 0 true true;
   CallWatchFree 1 true].

Definition released_state : State (backend_of KQUEUE) :=
  Eval vm_compute in
  default (event_manager_init (backend_of KQUEUE) 3)
    (run_calls (backend_of KQUEUE) released_calls
       (event_manager_init (backend_of KQUEUE) 3)).

(** An event that reports a hang-up ([EPOLLHUP], 16) on the watch of
    [stop_state] and nothing else. *)
Definition hangup_event : Epoll.epoll_event := Epoll.MkEvent 16 1.

(** A manager whose only timeout was disarmed with [timeout_update]
    and [NULL], and the state after a turn that a signal interrupts. *)
Definition disarmed_state : State Epoll.backend :=
  Eval vm_compute in
  default (event_manager_init Epoll.backend 3)
    (run_calls Epoll.backend
       [CallTimeoutNew (Timeval 5 0) 0 0 true; CallTimeoutUpdate 1 None]
       (event_manager_init Epoll.backend 3)).

Definition disarmed_after : turn_result Epoll.backend :=
  Eval vm_compute in
  default (Continue disarmed_state)
    (loop_turn Epoll.backend (quiet Z) eintr_turn disarmed_state).

(** ** Observations of the wait and of the kernel tables *)

(** The budgets of the waits of a run, newest first. *)
Definition wait_budgets {B : Backend} (l : list (log_entry (budget_t B)))
  : list (budget_t B) :=
  omap (fun e => match e with LWait b => Some b | _ => None end) l.

(** [found] is the earliest armed timeout of the list [l] walked from
    [timeout_head]: an armed trigger of the list that no armed trigger
    of the list precedes, or none when no timeout of the list is
    armed. *)
Definition least_armed {B : Backend} (st : State B) (l : list ptr)
  (found : option timeval) : Prop :=
  match found with
  | None =>
      forall p tm, p ∈ l -> timeouts st !! p = Some tm ->
        timerisset (trigger_time tm) = false
  | Some t =>
      (exists p tm, p ∈ l /\ timeouts st !! p = Some tm /\
                    trigger_time tm = t /\ timerisset t = true) /\
      forall p tm, p ∈ l -> timeouts st !! p = Some tm ->
        timerisset (trigger_time tm) = true ->
        timercmp_lt (trigger_time tm) t = false
  end.

(** The budget [b] of a wait is the default of the backend when no
    deadline was found, and the time that remains until the deadline
    otherwise: in milliseconds for epoll, as a valid [timespec] for
    kqueue. *)
Definition budget_is (kind : backend_kind) (found : option timeval)
  (now : timeval) : budget_t (backend_of kind) -> Prop :=
  match kind with
  | EPOLL => fun ms =>
      ms = match found with
           | None => 10000
           | Some t => remaining_ms t now
           end
  | KQUEUE => fun ts =>
      match found with
      | None => ts = Kqueue.MkTimespec 1 0
      | Some t =>
          nanos ts = remaining_ns t now /\
          0 <= Kqueue.ts_nsec ts < 1000000000
      end
  end.

(** The kernel holds no entry for a descriptor: no event in the epoll
    table, neither filter in the kqueue table. *)
Definition unregistered (kind : backend_kind)
  : kernel_t (backend_of kind) -> Z -> Prop :=
  match kind with
  | EPOLL => fun k fd => k !! fd = None
  | KQUEUE => fun k fd =>
      k !! (fd, EVFILT_READ) = None /\ k !! (fd, EVFILT_WRITE) = None
  end.

(** Every entry of the epoll table has an event mask that is not
    empty. *)
Definition entries_not_empty (k : gmap Z Epoll.epoll_event) : Prop :=
  forall fd e, k !! fd = Some e -> Epoll.events e <> 0.

(** A manager with one timeout due at 30.0015 s, a turn at 10.25 s that
    a signal interrupts, and the state after it; and the same turn on a
    fresh kqueue manager. *)
Definition budget_state : State (backend_of EPOLL) :=
  Eval vm_compute in
  default (event_manager_init Epoll.backend 3)
    (run_calls Epoll.backend [CallTimeoutNew (Timeval 30 1500) 0 0 true]
       (event_manager_init Epoll.backend 3)).

Definition budget_turn : turn Epoll.epoll_event :=
  MkTurn (Timeval 10 250000) (WaitFail EINTR) (Timeval 10 250000).

Definition budget_after : turn_result (backend_of EPOLL) :=
  Eval vm_compute in
  default (Continue budget_state)
    (loop_turn Epoll.backend (quiet Z) budget_turn budget_state).

Definition kqueue_turn : turn Kqueue.kevent_t :=
  MkTurn (Timeval 10 0) (WaitFail EINTR) (Timeval 10 0).

Definition kqueue_after : turn_result Kqueue.backend :=
  Eval vm_compute in
  default (Continue (event_manager_init Kqueue.backend 3))
    (loop_turn Kqueue.backend (quiet Kqueue.timespec) kqueue_turn
       (event_manager_init Kqueue.backend 3)).

(** [budget_state] with its timeout due at second 30, and the turn at
    second 10. *)
Definition capped_state : State Epoll.backend :=
  Eval vm_compute in
  default (event_manager_init Epoll.backend 3)
    (run_calls Epoll.backend [CallTimeoutNew (Timeval 30 0) 0 0 true]
       (event_manager_init Epoll.backend 3)).

Definition capped_turn : turn Epoll.epoll_event :=
  MkTurn (Timeval 10 0) (WaitFail EINTR) (Timeval 10 0).

Definition capped_after : turn_result Epoll.backend :=
  Eval vm_compute in
  default (Continue capped_state)
    (loop_turn Epoll.backend (quiet Z) capped_turn capped_state).

(** A manager on which [timeout_new] was called for second 100 and then
    for second 5, and the turn at second 1. *)
Definition unlinked_state : State Epoll.backend :=
  Eval vm_compute in
  default (event_manager_init Epoll.backend 3)
    (run_calls Epoll.backend
       [CallTimeoutNew (Timeval 100 0) 0 0 true;
        CallTimeoutNew (Timeval 5 0) 0 0 true]
       (event_manager_init Epoll.backend 3)).

Definition unlinked_turn : turn Epoll.epoll_event :=
  MkTurn (Timeval 1 0) (WaitFail EINTR) (Timeval 1 0).

Definition unlinked_after : turn_result Epoll.backend :=
  Eval vm_compute in
  default (Continue unlinked_state)
    (loop_turn Epoll.backend (quiet Z) unlinked_turn unlinked_state).

(** * Proofs *)

(** ** Predicates kept by a run

    A predicate on states that every call of the host, every callback
    entry of the log and every step of the loop keeps is kept by the
    dispatch, by the sweep, by the loop and by whatever the application
    does.  Each lemma depends on the closure conditions it uses only. *)

Section Preservation.

Variable B : Backend.
Variable host : Host (budget_t B).
Variable P : State B -> Prop.

Hypothesis P_call :
  forall c st st', P st -> exec_call B c st = Some st' -> P st'.
Hypothesis P_watch_cb :
  forall st p w ev, P st -> watches st !! p = Some w -> w_deleted w = false ->
    P (emit B (LWatchCb p (w_fd w) ev (w_mhd_data w)) st).
Hypothesis P_timeout_cb :
  forall st p d, P st -> P (emit B (LTimeoutCb p d) st).
Hypothesis P_zero :
  forall st p t, P st -> timeouts st !! p = Some t ->
    P (set_timeouts B (<[p := set_trigger_time timer_zero t]> (timeouts st)) st).
Hypothesis P_wait : forall st b, P st -> P (emit B (LWait b) st).
Hypothesis P_reap : forall st st', P st -> reap B st = Some st' -> P st'.
Hypothesis P_stop : forall st v, P st -> P (set_stop B v st).
Hypothesis P_close :
  forall st, P st -> P (set_em_fd B (-1) (emit B (LClose (em_fd st)) st)).

Lemma run_calls_keeps cs :
  forall st st', P st -> run_calls B cs st = Some st' -> P st'.
Proof.
  induction cs as [|c cs IH]; intros st st' HP Hrun; simpl in Hrun.
  - by inversion Hrun; subst.
  - destruct (exec_call B c st) as [st1|] eqn:Hc; simpl in Hrun; [|done].
    eapply IH; [|exact Hrun]. by eapply P_call.
Qed.

Lemma invoke_watch_keeps p ev st st' :
  P st -> live st p = true -> invoke_watch B host p ev st = Some st' -> P st'.
Proof.
  unfold invoke_watch, live. intros HP Hl Hi.
  destruct (watches st !! p) as [w|] eqn:Hw; simpl in Hi; [|done].
  eapply run_calls_keeps; [|exact Hi].
  apply P_watch_cb; [done..|]. by destruct (w_deleted w).
Qed.

Lemma invoke_timeout_keeps p st st' :
  P st -> invoke_timeout B host p st = Some st' -> P st'.
Proof.
  unfold invoke_timeout. intros HP Hi.
  destruct (timeouts st !! p) as [t|] eqn:Ht; simpl in Hi; [|done].
  eapply run_calls_keeps; [|exact Hi]. by apply P_timeout_cb.
Qed.

Lemma dispatch_event_keeps e st st' :
  P st -> dispatch_event B host e st = Some st' -> P st'.
Proof.
  unfold dispatch_event. intros HP Hd.
  destruct (ev_error B e); [by inversion Hd; subst|].
  destruct (watches st !! ev_udata B e) as [w|] eqn:Hw; simpl in Hd; [|done].
  assert (exists st1,
    (if negb (w_deleted w) && ev_in B e
     then invoke_watch B host (ev_udata B e) MHD_WATCH_IN st else Some st)
    = Some st1 /\ P st1) as (st1 & H1 & HP1).
  { destruct (negb (w_deleted w) && ev_in B e) eqn:Hg.
    - destruct (invoke_watch B host (ev_udata B e) MHD_WATCH_IN st)
        as [st1|] eqn:Hi; simpl in Hd; [|done].
      exists st1. split; [done|]. eapply invoke_watch_keeps; [exact HP| |exact Hi].
      unfold live. rewrite Hw. by destruct (w_deleted w).
    - by exists st. }
  rewrite H1 in Hd. simpl in Hd.
  destruct (watches st1 !! ev_udata B e) as [w1|] eqn:Hw1; simpl in Hd; [|done].
  destruct (negb (w_deleted w1) && ev_out B e) eqn:Hg.
  - eapply invoke_watch_keeps; [exact HP1| |exact Hd].
    unfold live. rewrite Hw1. by destruct (w_deleted w1).
  - by inversion Hd; subst.
Qed.

Lemma dispatch_keeps events :
  forall st st', P st -> dispatch B host events st = Some st' -> P st'.
Proof.
  induction events as [|e events IH]; intros st st' HP Hd; simpl in Hd.
  - by inversion Hd; subst.
  - destruct (dispatch_event B host e st) as [st1|] eqn:He; simpl in Hd; [|done].
    eapply IH; [|exact Hd]. by eapply dispatch_event_keeps.
Qed.

Lemma sweep_from_keeps fuel now :
  forall t st st', P st -> sweep_from B host fuel now t st = Some st' -> P st'.
Proof.
  induction fuel as [|fuel IH]; intros [p|] st st' HP Hs; simpl in Hs;
    try done; try by (inversion Hs; subst).
  destruct (timeouts st !! p) as [tm|] eqn:Ht; simpl in Hs; [|done].
  destruct (timercmp_lt (trigger_time tm) now).
  - match type of Hs with (?m ≫= _) = _ => destruct m as [st1|] eqn:Hi end;
      simpl in Hs; [|done].
    eapply IH; [|exact Hs]. eapply invoke_timeout_keeps; [|exact Hi].
    by apply P_zero.
  - by eapply IH.
Qed.

Lemma loop_turn_keeps tn st r :
  P st -> loop_turn B host tn st = Some r -> P (turn_state r).
Proof.
  unfold loop_turn. intros HP Ht.
  destruct (earliest B st) as [found|]; simpl in Ht; [|done].
  pose proof (P_wait st (b_budget B found (now_before tn)) HP) as HP1.
  destruct (wait tn) as [errno|events].
  - destruct (errno =? EINTR); inversion Ht; subst; done.
  - match type of Ht with (?m ≫= _) = _ => destruct m as [st2|] eqn:H2 end;
      simpl in Ht; [|done].
    assert (P st2) as HP2.
    { destruct events; [|by inversion H2; subst].
      eapply sweep_from_keeps; [exact HP1|exact H2]. }
    destruct (dispatch B host events st2) as [st3|] eqn:H3; simpl in Ht; [|done].
    destruct (reap B st3) as [st4|] eqn:H4; simpl in Ht; [|done].
    inversion Ht; subst. simpl.
    eapply P_reap; [|exact H4]. by eapply dispatch_keeps.
Qed.

Lemma loop_from_keeps script :
  forall st r, P st -> loop_from B host script st = Some r -> P (result_state r).
Proof.
  induction script as [|tn script IH]; intros st r HP Hl; simpl in Hl.
  - destruct (stop st); inversion Hl; subst; simpl; [by apply P_close|done].
  - destruct (stop st); [inversion Hl; subst; simpl; by apply P_close|].
    destruct (loop_turn B host tn st) as [tr|] eqn:Ht; simpl in Hl; [|done].
    pose proof (loop_turn_keeps _ _ _ HP Ht) as HP'.
    destruct tr as [st1|rc st1]; simpl in HP'.
    + by eapply IH.
    + by inversion Hl; subst.
Qed.

Lemma event_manager_loop_keeps script st r :
  P st -> event_manager_loop B host script st = Some r -> P (result_state r).
Proof.
  unfold event_manager_loop. intros HP Hl.
  destruct (em_fd (set_stop B false st) <? 0).
  - inversion Hl; subst. simpl. by apply P_stop.
  - eapply loop_from_keeps; [|exact Hl]. by apply P_stop.
Qed.

Lemma run_app_keeps steps :
  forall st st', P st -> run_app B host steps st = Some st' -> P st'.
Proof.
  induction steps as [|[c|script] steps IH]; intros st st' HP Hr; simpl in Hr.
  - by inversion Hr; subst.
  - destruct (exec_call B c st) as [st1|] eqn:Hc; simpl in Hr; [|done].
    eapply IH; [|exact Hr]. by eapply P_call.
  - destruct (event_manager_loop B host script st) as [r|] eqn:Hl;
      simpl in Hr; [|done].
    eapply IH; [|exact Hr]. by eapply event_manager_loop_keeps.
Qed.

End Preservation.

(** ** What a call and the reap do to the state *)

Section Effects.

Variable B : Backend.
Variable host : Host (budget_t B).

Lemma watch_update_inv p ev ok (st st' : State B) :
  watch_update B p ev ok st = Some st' ->
  exists w, watches st !! p = Some w /\
    st' = set_kernel B (snd (b_watch_update B p w ev ok (kernel st)))
            (set_watches B
               (<[p := set_w_mask B (fst (b_watch_update B p w ev ok (kernel st))) w]>
                  (watches st)) st).
Proof.
  unfold watch_update. intros H.
  destruct (watches st !! p) as [w|]; simpl in H; [|done].
  exists w. split; [done|].
  destruct (b_watch_update B p w ev ok (kernel st)) as [m k].
  by inversion H.
Qed.

Lemma watch_new_inv fd ev cb data mem_ok ok (st st' : State B) r :
  watch_new B fd ev cb data mem_ok ok st = Some (r, st') ->
  (mem_ok = false /\ r = None /\ st' = st) \/
  (mem_ok = true /\ r = Some (brk st) /\
   watch_update B (brk st) ev ok
     (set_brk B (Pos.succ (brk st))
        (set_watches B
           (<[brk st := MkWatch fd cb data (mask_init B) false None]> (watches st))
           st)) = Some st').
Proof.
  unfold watch_new. intros H. destruct mem_ok.
  - right.
    match type of H with (?m ≫= _) = _ => destruct m as [st1|] eqn:Hu end;
      simpl in H; [|done].
    by inversion H; subst.
  - left. by inversion H.
Qed.

Lemma watch_free_inv p ok (st st' : State B) :
  watch_free B p ok st = Some st' ->
  exists w, watches st !! p = Some w /\
    st' = set_orphaned_watches B (Some p)
            (set_kernel B (b_watch_release B p w ok (kernel st))
               (set_watches B
                  (<[p := match orphaned_watches st with
                          | Some _ =>
                              set_w_next B (orphaned_watches st)
                                (set_w_deleted B true w)
                          | None => set_w_deleted B true w
                          end]> (watches st)) st)).
Proof.
  unfold watch_free. intros H.
  destruct (watches st !! p) as [w|]; simpl in H; [|done].
  exists w. split; [done|]. by inversion H.
Qed.

Lemma store_previous_inv q v (st st' : State B) :
  store_previous B q v st = Some st' ->
  log st' = log st /\ watches st' = watches st /\ brk st' = brk st /\
  kernel st' = kernel st /\ orphaned_watches st' = orphaned_watches st /\
  em_fd st' = em_fd st.
Proof.
  unfold store_previous. intros H.
  destruct q as [a|]; simpl in H; [|done].
  destruct (timeouts st !! a); simpl in H; [|done]. by inversion H.
Qed.

Lemma store_next_inv q v (st st' : State B) :
  store_next B q v st = Some st' ->
  log st' = log st /\ watches st' = watches st /\ brk st' = brk st /\
  kernel st' = kernel st /\ orphaned_watches st' = orphaned_watches st /\
  em_fd st' = em_fd st.
Proof.
  unfold store_next. intros H.
  destruct q as [a|]; simpl in H; [|done].
  destruct (timeouts st !! a); simpl in H; [|done]. by inversion H.
Qed.

(** The timeout calls leave the watches, the kernel and the log alone. *)
Lemma timeout_free_inv p (st st' : State B) :
  timeout_free B p st = Some st' ->
  log st' = log st /\ watches st' = watches st /\ brk st' = brk st /\
  kernel st' = kernel st /\ orphaned_watches st' = orphaned_watches st /\
  em_fd st' = em_fd st.
Proof.
  unfold timeout_free. intros H.
  destruct (timeouts st !! p) as [t|]; simpl in H; [|done].
  match type of H with (?m ≫= _) = _ => destruct m as [st1|] eqn:H1 end;
    simpl in H; [|done].
  inversion H; subst; clear H. simpl.
  destruct (bool_decide (timeout_head st = Some p) &&
            bool_decide (timeout_tail st = Some p)).
  { by inversion H1; subst. }
  destruct (bool_decide (timeout_head st = Some p)).
  { by apply store_previous_inv in H1. }
  destruct (bool_decide (timeout_tail st = Some p)).
  { destruct (store_next B (t_previous t) None st) as [st2|] eqn:H2;
      simpl in H1; [|done].
    apply store_next_inv in H2. by inversion H1; subst. }
  destruct (store_next B (t_previous t) (t_next t) st) as [st2|] eqn:H2;
    simpl in H1; [|done].
  apply store_next_inv in H2. apply store_previous_inv in H1.
  destruct H1 as (-> & -> & -> & -> & -> & ->). done.
Qed.

Lemma timeout_update_inv p tv (st st' : State B) :
  timeout_update B p tv st = Some st' ->
  log st' = log st /\ watches st' = watches st /\ brk st' = brk st /\
  kernel st' = kernel st /\ orphaned_watches st' = orphaned_watches st /\
  em_fd st' = em_fd st.
Proof.
  unfold timeout_update. intros H.
  destruct (timeouts st !! p); simpl in H; [|done]. by inversion H.
Qed.

Lemma timeout_new_inv tv cb data mem_ok (st : State B) :
  let st' := snd (timeout_new B tv cb data mem_ok st) in
  log st' = log st /\ watches st' = watches st /\
  (brk st <= brk st')%positive /\
  kernel st' = kernel st /\ orphaned_watches st' = orphaned_watches st /\
  em_fd st' = em_fd st.
Proof.
  unfold timeout_new. destruct mem_ok; [|done].
  destruct (timeout_head st); simpl; repeat split; lia.
Qed.

(** Every call adds its own entry to the log, and nothing else. *)
Lemma exec_call_log c (st st' : State B) :
  exec_call B c st = Some st' -> exists r, log st' = LApi c r :: log st.
Proof.
  destruct c; simpl; intros H.
  - destruct (watch_new B fd events cb data mem_ok ctl_ok st) as [[r st1]|] eqn:Hn;
      simpl in H; [|done].
    inversion H; subst; clear H. exists r. simpl. f_equal.
    apply watch_new_inv in Hn as [(_ & _ & ->)|(_ & _ & Hu)]; [done|].
    by apply watch_update_inv in Hu as (w0 & _ & ->).
  - destruct (watch_update B w events ctl_ok st) as [st1|] eqn:Hu;
      simpl in H; [|done].
    inversion H; subst. exists None. simpl. f_equal.
    by apply watch_update_inv in Hu as (w0 & _ & ->).
  - destruct (watch_free B w ctl_ok st) as [st1|] eqn:Hf; simpl in H; [|done].
    inversion H; subst. exists None. simpl. f_equal.
    by apply watch_free_inv in Hf as (w0 & _ & ->).
  - pose proof (timeout_new_inv tv cb data mem_ok st) as (Hl & _).
    destruct (timeout_new B tv cb data mem_ok st) as [r st1].
    inversion H; subst. exists r. simpl in *. by f_equal.
  - destruct (timeout_update B t tv st) as [st1|] eqn:Hu; simpl in H; [|done].
    inversion H; subst. exists None. simpl. f_equal.
    by apply timeout_update_inv in Hu as (-> & _).
  - destruct (timeout_free B t st) as [st1|] eqn:Hf; simpl in H; [|done].
    inversion H; subst. exists None. simpl. f_equal.
    by apply timeout_free_inv in Hf as (-> & _).
  - inversion H; subst. by exists None.
Qed.

(** The reap adds [LFree] entries only, and frees memory only. *)
Lemma reap_from_log fuel :
  forall w (st st' : State B), reap_from B fuel w st = Some st' ->
    exists ps, log st' = map LFree ps ++ log st.
Proof.
  induction fuel as [|fuel IH]; intros [p|] st st' H; simpl in H;
    try done; try (inversion H; subst; by exists []).
  destruct (watches st !! p) as [tmp|]; simpl in H; [|done].
  apply IH in H as (ps & ->). exists (ps ++ [p]).
  rewrite map_app, <- app_assoc. done.
Qed.

Lemma reap_log (st st' : State B) :
  reap B st = Some st' -> exists ps, log st' = map LFree ps ++ log st.
Proof.
  unfold reap. intros H.
  destruct (reap_from B (S (size (watches st))) (orphaned_watches st) st)
    as [st1|] eqn:Hr; simpl in H; [|done].
  inversion H; subst. simpl. by eapply reap_from_log.
Qed.

Lemma timeout_calls_free ps (l : list (log_entry (budget_t B))) :
  timeout_calls (map LFree ps ++ l) = timeout_calls l.
Proof. induction ps as [|p ps IH]; simpl; done. Qed.

Lemma watch_calls_free ps (l : list (log_entry (budget_t B))) :
  watch_calls (map LFree ps ++ l) = watch_calls l.
Proof. induction ps as [|p ps IH]; simpl; done. Qed.

Lemma freed_list_free ps (l : list (log_entry (budget_t B))) :
  freed_list (map LFree ps ++ l) = freed_list l.
Proof. induction ps as [|p ps IH]; simpl; done. Qed.

End Effects.

(** ** The loop: firing gate and exits *)

Section Loop.

Variable B : Backend.
Variable host : Host (budget_t B).

(** C7.  Timeout callbacks run only in a turn whose wait returned zero
    events: in a turn whose wait returned one or more events (or
    failed), no timeout callback is invoked, whatever the trigger
    instants are. *)
Theorem timeouts_fire_only_on_idle_turns tn (st : State B) r :
  loop_turn B host tn st = Some r -> ready (wait tn) <> 0 ->
  timeout_calls (log (turn_state r)) = timeout_calls (log st).
Proof.
  unfold loop_turn. intros Ht Hready.
  destruct (earliest B st) as [found|]; simpl in Ht; [|done].
  destruct (wait tn) as [errno|events].
  - destruct (errno =? EINTR); by inversion Ht; subst.
  - match type of Ht with (?m ≫= _) = _ => destruct m as [st2|] eqn:H2 end;
      simpl in Ht; [|done].
    destruct (dispatch B host events st2) as [st3|] eqn:H3; simpl in Ht; [|done].
    destruct (reap B st3) as [st4|] eqn:H4; simpl in Ht; [|done].
    inversion Ht; subst; clear Ht. simpl.
    apply reap_log in H4 as (ps & ->). rewrite timeout_calls_free.
    destruct events as [|e events]; [done|]. inversion H2; subst; clear H2.
    eapply (dispatch_keeps B host
              (fun s => timeout_calls (log s) = timeout_calls (log st)));
      [| | |exact H3]; [| |reflexivity].
    + intros c s s' Hs Hc. apply exec_call_log in Hc as (r & ->). done.
    + intros s p w ev Hs _ _. done.
Qed.

Lemma loop_turn_return tn (st : State B) rc st' :
  loop_turn B host tn st = Some (Return rc st') -> rc = -1.
Proof.
  unfold loop_turn. intros Ht.
  destruct (earliest B st) as [found|]; simpl in Ht; [|done].
  destruct (wait tn) as [errno|events].
  - destruct (errno =? EINTR); by inversion Ht.
  - repeat (match type of Ht with (?m ≫= _) = _ => destruct m end;
            simpl in Ht; [|done]).
    done.
Qed.

(** A wait that fails with another error than [EINTR] ends the loop by
    [return -1], before the [close] after the loop. *)
Lemma wait_error_returns tn script (st : State B) errno found :
  wait tn = WaitFail errno -> errno <> EINTR -> 0 <= em_fd st ->
  earliest B (set_stop B false st) = Some found ->
  event_manager_loop B host (tn :: script) st =
  Some (Returned (-1)
          (emit B (LWait (b_budget B found (now_before tn)))
             (set_stop B false st))).
Proof.
  intros Hw He Hfd Hf. unfold event_manager_loop.
  replace (em_fd (set_stop B false st) <? 0) with false
    by (symmetry; apply Z.ltb_ge; done).
  simpl. unfold loop_turn. rewrite Hf, Hw. simpl.
  by apply Z.eqb_neq in He as ->.
Qed.

(** A wait that a signal interrupts is swallowed: the turn ends there,
    without error, and the loop goes on with the next turn. *)
Lemma interrupted_turn_continues tn (st : State B) found :
  wait tn = WaitFail EINTR -> earliest B st = Some found ->
  loop_turn B host tn st =
  Some (Continue (emit B (LWait (b_budget B found (now_before tn))) st)).
Proof. intros Hw Hf. unfold loop_turn. by rewrite Hf, Hw. Qed.

End Loop.

Lemma timeouts_fire_only_on_idle_turns_witness :
  timeout_calls (log (turn_state demo_after)) = timeout_calls (log demo_state).
Proof.
  apply (timeouts_fire_only_on_idle_turns Epoll.backend (quiet Z) demo_turn).
  - reflexivity.
  - discriminate.
Defined.

(** C8.  The failing input: a wait that fails with [EBADF] (9) in the
    first turn, on either backend.  [event_manager_loop] returns -1 by
    the [return] inside the loop: the descriptor of the backend is
    still 3 afterwards and no [close] was issued. *)
Theorem wait_error_leaves_handle_open (kind : backend_kind) :
  exists st',
    event_manager_loop (backend_of kind) (quiet _)
      [MkTurn (Timeval 1 0) (WaitFail 9) (Timeval 1 0)]
      (event_manager_init (backend_of kind) 3)
    = Some (Returned (-1) st') /\
    em_fd st' = 3 /\
    log st' = [LWait (b_budget (backend_of kind) None (Timeval 1 0))].
Proof.
  destruct kind; eexists; (split; [reflexivity|split; reflexivity]).
Qed.

(** ** The timeout list *)

Lemma walk_from_more fuel h :
  forall t l, walk_from fuel h t = Some l -> walk_from (S fuel) h t = Some l.
Proof.
  induction fuel as [|fuel IH]; intros [p|] l H; try done.
  simpl in H.
  destruct (h !! p) as [tm|] eqn:Hp; simpl in H; [|done].
  destruct (walk_from fuel h (t_next tm)) as [l'|] eqn:Hw; simpl in H; [|done].
  apply IH in Hw. inversion H; subst.
  change (walk_from (S (S fuel)) h (Some p))
    with (tm ← h !! p; l ← walk_from (S fuel) h (t_next tm); Some (p :: l)).
  rewrite Hp. cbn [mbind option_bind]. rewrite Hw. done.
Qed.

(** A node stored at an address that no walk has met is not met by the
    walk afterwards either. *)
Lemma walk_from_insert_fresh fuel (h : gmap ptr MHD_Timeout) q x :
  h !! q = None ->
  forall t l, walk_from fuel h t = Some l ->
    walk_from fuel (<[q := x]> h) t = Some l /\ q ∉ l.
Proof.
  intros Hq. induction fuel as [|fuel IH]; intros [p|] l H; simpl in H;
    try done; try (inversion H; subst; split; [done|apply not_elem_of_nil]).
  destruct (h !! p) as [tm|] eqn:Hp; simpl in H; [|done].
  destruct (walk_from fuel h (t_next tm)) as [l'|] eqn:Hw; simpl in H; [|done].
  inversion H; subst; clear H.
  assert (q <> p) as Hne by (intros ->; congruence).
  destruct (IH _ _ Hw) as [Hw' Hnin]. split.
  - simpl. rewrite lookup_insert_ne by done. rewrite Hp. simpl.
    rewrite Hw'. done.
  - rewrite not_elem_of_cons. done.
Qed.

(** On a list that is not empty, [timeout_new] leaves the walk from the
    head as it was: the new timeout is the tail and is not reached. *)
Lemma timeout_new_not_reached (B : Backend) (st : State B) tv cb data l :
  timeout_head st <> None -> timeouts st !! brk st = None ->
  timeout_list st = Some l ->
  fst (timeout_new B tv cb data true st) = Some (brk st) /\
  timeout_tail (snd (timeout_new B tv cb data true st)) = Some (brk st) /\
  timeout_list (snd (timeout_new B tv cb data true st)) = Some l /\
  brk st ∉ l.
Proof.
  intros Hh Hfresh Hl. unfold timeout_new.
  destruct (timeout_head st) as [h|] eqn:Hhead; [|done]. simpl.
  split; [done|]. split; [done|].
  unfold timeout_list in *.
  cbn [timeouts timeout_head set_timeouts set_timeout_tail set_brk].
  rewrite Hhead in *.
  rewrite map_size_insert_None by done.
  apply walk_from_more in Hl.
  by apply walk_from_insert_fresh.
Qed.

(** C4.  The failing input: two calls of [timeout_new] on a fresh event
    manager, on any backend.  The second call returns a timeout and
    makes it the tail, but the [next] of the first timeout stays
    [NULL]: the walk from the head meets the first timeout only. *)
Theorem timeout_new_second_not_linked (B : Backend) (fd : Z)
  (tv1 tv2 : timeval) (cb1 cb2 d1 d2 : nat) :
  let st1 := snd (timeout_new B tv1 cb1 d1 true (event_manager_init B fd)) in
  let st2 := snd (timeout_new B tv2 cb2 d2 true st1) in
  fst (timeout_new B tv2 cb2 d2 true st1) = Some 2%positive /\
  timeout_head st2 = Some 1%positive /\
  timeout_tail st2 = Some 2%positive /\
  t_next <$> timeouts st2 !! 1%positive = Some None /\
  t_previous <$> timeouts st2 !! 2%positive = Some (Some 1%positive) /\
  timeout_list st2 = Some [1%positive].
Proof. repeat split; reflexivity. Qed.

(** C6.  The failing input: one timeout armed once, for second 5, with
    a callback that calls nothing, and two turns whose waits return no
    event, at seconds 10 and 20, on either backend.  The first sweep
    fires the timeout and leaves it disarmed; the second sweep fires it
    again, because the sweep compares the zero instant with the clock
    without asking [timerisset]. *)
Theorem disarmed_timeout_fires_again (kind : backend_kind) :
  let B := backend_of kind in
  let st := snd (timeout_new B (Timeval 5 0) 0 0 true (event_manager_init B 3)) in
  let idle := fun s => MkTurn (Timeval s 0) (WaitReady []) (Timeval s 0) in
  (r ← loop_turn B (quiet _) (idle 10) st;
   Some (timeout_calls (log (turn_state r)),
         trigger_time <$> timeouts (turn_state r) !! 1%positive))
  = Some ([1%positive], Some timer_zero) /\
  (r ← event_manager_loop B (quiet _) [idle 10; idle 20] st;
   Some (timeout_calls (log (result_state r))))
  = Some [1%positive; 1%positive].
Proof. destruct kind; split; reflexivity. Qed.

(** ** The scan for the earliest armed timeout *)

Ltac timer_order :=
  unfold timercmp_lt in *;
  repeat match goal with
         | H : context [?a =? ?b] |- _ =>
             destruct (Z.eqb_spec a b)
         | |- context [?a =? ?b] =>
             destruct (Z.eqb_spec a b)
         end;
  repeat match goal with
         | H : (_ <? _) = true |- _ => apply Z.ltb_lt in H
         | H : (_ <? _) = false |- _ => apply Z.ltb_ge in H
         end;
  try (apply Z.ltb_ge); try (apply Z.ltb_lt); lia.

Lemma timercmp_ge_trans a b c :
  timercmp_lt a b = false -> timercmp_lt b c = false -> timercmp_lt a c = false.
Proof. intros H1 H2. timer_order. Qed.

Lemma timercmp_lt_ge_trans a b c :
  timercmp_lt a b = true -> timercmp_lt a c = false -> timercmp_lt b c = false.
Proof. intros H1 H2. timer_order. Qed.

Lemma timercmp_lt_irrefl a : timercmp_lt a a = false.
Proof. timer_order. Qed.

(** The scan returns an armed trigger of the list (or the candidate it
    was started with), and no armed trigger of the list, nor that
    candidate, is earlier. *)
Lemma earliest_from_minimum fuel (h : gmap ptr MHD_Timeout) :
  forall t found r l,
    earliest_from fuel h t found = Some r -> walk_from fuel h t = Some l ->
    match r with
    | None =>
        found = None /\
        forall p tm, p ∈ l -> h !! p = Some tm ->
          timerisset (trigger_time tm) = false
    | Some tv =>
        (found = Some tv \/
         exists p tm, p ∈ l /\ h !! p = Some tm /\ trigger_time tm = tv /\
                      timerisset tv = true) /\
        (forall p tm, p ∈ l -> h !! p = Some tm ->
           timerisset (trigger_time tm) = true ->
           timercmp_lt (trigger_time tm) tv = false) /\
        (forall x, found = Some x -> timercmp_lt x tv = false)
    end.
Proof.
  assert (forall found r l,
            Some found = Some r -> Some [] = Some l ->
            match r with
            | None =>
                found = None /\
                forall p tm, p ∈ l -> h !! p = Some tm ->
                  timerisset (trigger_time tm) = false
            | Some tv =>
                (found = Some tv \/
                 exists p tm, p ∈ l /\ h !! p = Some tm /\
                              trigger_time tm = tv /\ timerisset tv = true) /\
                (forall p tm, p ∈ l -> h !! p = Some tm ->
                   timerisset (trigger_time tm) = true ->
                   timercmp_lt (trigger_time tm) tv = false) /\
                (forall x, found = Some x -> timercmp_lt x tv = false)
            end) as Hend.
  { intros found r l He Hw. inversion He; subst. inversion Hw; subst.
    destruct r as [tv|].
    - split; [by left|]. split; [by intros ? ? H%elem_of_nil|].
      intros x Hx. inversion Hx; subst. apply timercmp_lt_irrefl.
    - split; [done|]. by intros ? ? H%elem_of_nil. }
  induction fuel as [|fuel IH]; intros [p|] found r l He Hw; simpl in He, Hw;
    try done; try (by apply Hend).
  - destruct (h !! p) as [tm|] eqn:Hp; simpl in He, Hw; [|done].
    destruct (walk_from fuel h (t_next tm)) as [l'|] eqn:Hw'; simpl in Hw;
      [|done].
    inversion Hw; subst l; clear Hw.
    specialize (IH _ _ _ _ He Hw').
    destruct (timerisset (trigger_time tm)) eqn:Hset; simpl in IH.
    + destruct found as [f|].
      * destruct (timercmp_lt (trigger_time tm) f) eqn:Hlt.
        -- destruct r as [tv|]; [|by destruct IH].
           destruct IH as (Hsrc & Hmin & Hacc). split; [|split].
           ++ right. destruct Hsrc as [Heq|(q & tq & Hq & Hhq & Htq & Hs)].
              ** inversion Heq; subst. exists p, tm.
                 split; [apply elem_of_cons; by left|done].
              ** exists q, tq. split; [apply elem_of_cons; by right|done].
           ++ intros q tq Hq Hhq Hs. apply elem_of_cons in Hq as [->|Hq].
              ** rewrite Hp in Hhq. inversion Hhq; subst. by apply Hacc.
              ** by eapply Hmin.
           ++ intros x Hx. inversion Hx; subst.
              eapply timercmp_lt_ge_trans; [exact Hlt|by apply Hacc].
        -- destruct r as [tv|]; [|by destruct IH].
           destruct IH as (Hsrc & Hmin & Hacc). split; [|split].
           ++ destruct Hsrc as [Heq|(q & tq & Hq & Hhq & Htq & Hs)];
                [by left|right].
              exists q, tq. split; [apply elem_of_cons; by right|done].
           ++ intros q tq Hq Hhq Hs. apply elem_of_cons in Hq as [->|Hq].
              ** rewrite Hp in Hhq. inversion Hhq; subst.
                 eapply timercmp_ge_trans; [exact Hlt|by apply Hacc].
              ** by eapply Hmin.
           ++ done.
      * destruct r as [tv|]; [|by destruct IH].
        destruct IH as (Hsrc & Hmin & Hacc). split; [|split].
        -- right. destruct Hsrc as [Heq|(q & tq & Hq & Hhq & Htq & Hs)].
           ++ inversion Heq; subst. exists p, tm.
              split; [apply elem_of_cons; by left|done].
           ++ exists q, tq. split; [apply elem_of_cons; by right|done].
        -- intros q tq Hq Hhq Hs. apply elem_of_cons in Hq as [->|Hq].
           ++ rewrite Hp in Hhq. inversion Hhq; subst. by apply Hacc.
           ++ by eapply Hmin.
        -- done.
    + destruct r as [tv|].
      * destruct IH as (Hsrc & Hmin & Hacc). split; [|split].
        -- destruct Hsrc as [Heq|(q & tq & Hq & Hhq & Htq & Hs)];
             [by left|right].
           exists q, tq. split; [apply elem_of_cons; by right|done].
        -- intros q tq Hq Hhq Hs. apply elem_of_cons in Hq as [->|Hq].
           ++ rewrite Hp in Hhq. inversion Hhq; subst. congruence.
           ++ by eapply Hmin.
        -- done.
      * destruct IH as (Hf & Hnone). split; [done|].
        intros q tq Hq Hhq. apply elem_of_cons in Hq as [->|Hq].
        -- rewrite Hp in Hhq. by inversion Hhq; subst.
        -- by eapply Hnone.
Qed.

(** Each turn hands the wait the budget computed from the scan, and the
    log keeps it. *)
Lemma loop_turn_budget (B : Backend) (host : Host (budget_t B)) tn
  (st : State B) r :
  loop_turn B host tn st = Some r ->
  exists found,
    earliest B st = Some found /\
    LWait (b_budget B found (now_before tn)) ∈ log (turn_state r).
Proof.
  unfold loop_turn. intros Ht.
  destruct (earliest B st) as [found|]; simpl in Ht; [|done].
  exists found. split; [done|].
  set (e := LWait (b_budget B found (now_before tn))) in *.
  set (P := fun s : State B => e ∈ log s).
  assert (P (emit B e st)) as HP1 by (apply elem_of_cons; by left).
  assert (forall c s s', P s -> exec_call B c s = Some s' -> P s') as Hcall.
  { intros c s s' Hs Hc. apply exec_call_log in Hc as (r0 & Hl).
    unfold P. rewrite Hl. apply elem_of_cons. by right. }
  assert (forall s x, P s -> P (emit B x s)) as Hemit.
  { intros s x Hs. apply elem_of_cons. by right. }
  destruct (wait tn) as [errno|events].
  - destruct (errno =? EINTR); inversion Ht; subst; exact HP1.
  - match type of Ht with (?m ≫= _) = _ => destruct m as [st2|] eqn:H2 end;
      simpl in Ht; [|done].
    destruct (dispatch B host events st2) as [st3|] eqn:H3; simpl in Ht; [|done].
    destruct (reap B st3) as [st4|] eqn:H4; simpl in Ht; [|done].
    inversion Ht; subst; clear Ht. simpl.
    apply reap_log in H4 as (ps & ->). apply elem_of_app. right.
    eapply (dispatch_keeps B host P); [exact Hcall| | |exact H3].
    + intros s p w ev Hs _ _. by apply Hemit.
    + destruct events; [|by inversion H2; subst].
      eapply (sweep_from_keeps B host P); [exact Hcall| | |exact HP1|exact H2].
      * intros s p d Hs. by apply Hemit.
      * intros s p t Hs _. exact Hs.
Qed.

(** ** The wait budget *)

Lemma timercmp_lt_usecs (a b : timeval) :
  normalized a -> normalized b ->
  timercmp_lt a b = true <-> usecs a < usecs b.
Proof.
  unfold normalized, timercmp_lt, usecs. intros Ha Hb.
  destruct (tv_sec a =? tv_sec b) eqn:Hs.
  - apply Z.eqb_eq in Hs. rewrite Z.ltb_lt. lia.
  - apply Z.eqb_neq in Hs. rewrite Z.ltb_lt. lia.
Qed.

Lemma timersub_usecs (a b : timeval) :
  normalized a -> normalized b ->
  usecs (timersub a b) = usecs a - usecs b /\ normalized (timersub a b).
Proof.
  unfold normalized, timersub, usecs. intros Ha Hb.
  destruct (tv_usec a - tv_usec b <? 0) eqn:Hu; simpl.
  - apply Z.ltb_lt in Hu. lia.
  - apply Z.ltb_ge in Hu. lia.
Qed.

Lemma to_int_fits (z : Z) : -2147483648 <= z < 2147483648 -> to_int z = z.
Proof.
  intros Hz. unfold to_int. rewrite Z.mod_small by lia. lia.
Qed.

(** The milliseconds of a remaining time that is not negative. *)
Lemma remaining_millis (r : timeval) :
  normalized r -> 0 <= usecs r ->
  tv_sec r * 1000 + Z.quot (tv_usec r) 1000 = usecs r / 1000.
Proof.
  unfold normalized, usecs. intros Hr Hpos.
  rewrite Z.quot_div_nonneg by lia.
  replace (tv_sec r * 1000000 + tv_usec r)
    with (tv_usec r + tv_sec r * 1000 * 1000) by lia.
  rewrite Z.div_add by lia. lia.
Qed.

(** The two budget computations.  With no timeout found the budget is
    10000 milliseconds for epoll and one second for kqueue.  With a
    timeout found at [t] and the clock at [now], it is the time that
    remains, rounded down to milliseconds for epoll and exact for
    kqueue, and 0 when the deadline has passed. *)
Lemma budget_of_remaining_time (t now : timeval) :
  normalized t -> normalized now ->
  (usecs t - usecs now) / 1000 < 2147483648 ->
  Epoll.ms_to_sleep None now = 10000 /\
  Kqueue.wait_ts None now = Kqueue.MkTimespec 1 0 /\
  Epoll.ms_to_sleep (Some t) now = remaining_ms t now /\
  nanos (Kqueue.wait_ts (Some t) now) = remaining_ns t now.
Proof.
  intros Ht Hn Hfit. split; [done|]. split; [done|].
  unfold Epoll.ms_to_sleep, Kqueue.wait_ts, remaining_ms, remaining_ns, nanos.
  pose proof (timercmp_lt_usecs t now Ht Hn) as Hcmp.
  destruct (timersub_usecs t now Ht Hn) as [Hsub Hnorm].
  destruct (timercmp_lt t now) eqn:Hlt.
  - assert (usecs t < usecs now) as Hneg by (by apply Hcmp).
    assert ((usecs t - usecs now) / 1000 < 0)
      by (apply Z.div_lt_upper_bound; lia).
    simpl. lia.
  - assert (usecs now <= usecs t) as Hpos.
    { destruct (Z.lt_ge_cases (usecs t) (usecs now)) as [Hc|Hc]; [|done].
      apply Hcmp in Hc. congruence. }
    assert (0 <= (usecs t - usecs now) / 1000)
      by (apply Z.div_pos; lia).
    rewrite remaining_millis by (done || lia). rewrite Hsub.
    rewrite to_int_fits by lia. cbn [Kqueue.ts_sec Kqueue.ts_nsec].
    unfold usecs in *. lia.
Qed.

(** ** [watch_new] and [watch_update] when the kernel refuses *)


(** On both backends the interest fields that [watch_update] stores do
    not depend on the kernel's answer. *)
Lemma stored_mask_ignores_kernel (kind : backend_kind) p w ev k :
  fst (b_watch_update (backend_of kind) p w ev false k)
  = fst (b_watch_update (backend_of kind) p w ev true k).
Proof.
  destruct kind; simpl.
  - unfold Epoll.watch_update.
    repeat match goal with |- context [if ?c then _ else _] =>
             destruct c end; done.
  - done.
Qed.



(** ** Mask parity when the kernel accepts every change *)

Section Parity.

Variable B : Backend.

(** What the proof needs of a backend: a fresh handle has nothing
    registered, an accepted [watch_update] leaves the kernel with the
    interest it stores, an accepted release leaves it with none, and
    neither touches another descriptor. *)
Hypothesis registered_init : forall fd,
  b_registered B (kernel_init B) fd = mask_init B.
Hypothesis update_same : forall p (w : MHD_Watch (mask_t B)) ev k,
  b_registered B k (w_fd w) = w_mask w ->
  b_registered B (snd (b_watch_update B p w ev true k)) (w_fd w)
  = fst (b_watch_update B p w ev true k).
Hypothesis update_other : forall p (w : MHD_Watch (mask_t B)) ev ok k fd,
  fd <> w_fd w ->
  b_registered B (snd (b_watch_update B p w ev ok k)) fd = b_registered B k fd.
Hypothesis release_same : forall p (w : MHD_Watch (mask_t B)) k,
  b_registered B k (w_fd w) = w_mask w ->
  b_registered B (b_watch_release B p w true k) (w_fd w) = mask_init B.
Hypothesis release_other : forall p (w : MHD_Watch (mask_t B)) ok k fd,
  fd <> w_fd w ->
  b_registered B (b_watch_release B p w ok k) fd = b_registered B k fd.

Lemma fd_free_spec (st : State B) fd :
  fd_free st fd = true <->
  forall p w, watches st !! p = Some w -> w_deleted w = false -> w_fd w <> fd.
Proof.
  unfold fd_free. rewrite forallb_forall. split.
  - intros H p w Hl Hd. specialize (H (p, w)). simpl in H.
    rewrite Hd in H. simpl in H.
    assert (negb (w_fd w =? fd) = true) as Hn.
    { apply H. apply list_elem_of_In. by apply elem_of_map_to_list. }
    apply negb_true_iff, Z.eqb_neq in Hn. done.
  - intros H [p w] Hin. simpl.
    apply list_elem_of_In, elem_of_map_to_list in Hin.
    destruct (w_deleted w) eqn:Hd; [done|]. simpl.
    apply negb_true_iff, Z.eqb_neq. by eapply H.
Qed.

Lemma live_spec (st : State B) p :
  live st p = true <->
  exists w, watches st !! p = Some w /\ w_deleted w = false.
Proof.
  unfold live. destruct (watches st !! p) as [w|]; split.
  - intros H. exists w. split; [done|]. by destruct (w_deleted w).
  - intros (w' & Hw & Hd). inversion Hw; subst. by rewrite Hd.
  - done.
  - by intros (w' & Hw & _).
Qed.

Lemma parity_inv_init fd : parity_inv (event_manager_init B fd).
Proof.
  split.
  - intros p w H. simpl in H. by rewrite lookup_empty in H.
  - intros p q w w' H. simpl in H. by rewrite lookup_empty in H.
  - intros fd' _. apply registered_init.
  - intros p [w H]. simpl in H. by rewrite lookup_empty in H.
Qed.

(** A change to the part of the state that is neither the watches nor
    the kernel keeps the invariant. *)
Lemma parity_inv_frame (st st' : State B) :
  watches st' = watches st -> kernel st' = kernel st ->
  (brk st <= brk st')%positive ->
  parity_inv st -> parity_inv st'.
Proof.
  intros Hw Hk Hb [H1 H2 H3 H4]. split.
  - unfold mask_parity. rewrite Hw, Hk. exact H1.
  - rewrite Hw. exact H2.
  - rewrite Hw, Hk. exact H3.
  - rewrite Hw. intros p Hp. specialize (H4 p Hp). lia.
Qed.

Lemma parity_inv_update p ev (st st' : State B) :
  parity_inv st -> live st p = true ->
  watch_update B p ev true st = Some st' -> parity_inv st'.
Proof.
  intros [H1 H2 H3 H4] Hlive Hu.
  apply watch_update_inv in Hu as (w & Hw & ->).
  apply live_spec in Hlive as (w' & Hw' & Hd).
  rewrite Hw in Hw'. inversion Hw'; subst w'; clear Hw'.
  split; simpl.
  - intros q wq Hq Hdq. simpl in *.
    destruct (decide (q = p)) as [->|Hne].
    + rewrite lookup_insert_eq in Hq. inversion Hq; subst; clear Hq. simpl.
      apply update_same. by eapply H1.
    + rewrite lookup_insert_ne in Hq by done.
      rewrite update_other; [by eapply H1|].
      intros Heq. apply Hne. by eapply H2.
  - intros q1 q2 w1 w2 Hq1 Hq2 Hd1 Hd2 Hfd.
    assert (forall q wq, <[p := set_w_mask B
              (fst (b_watch_update B p w ev true (kernel st))) w]> (watches st)
              !! q = Some wq ->
            exists wq', watches st !! q = Some wq' /\
              w_fd wq' = w_fd wq /\ w_deleted wq' = w_deleted wq) as Hold.
    { intros q wq Hq. destruct (decide (q = p)) as [->|Hne].
      - rewrite lookup_insert_eq in Hq. inversion Hq; subst. by exists w.
      - rewrite lookup_insert_ne in Hq by done. by exists wq. }
    apply Hold in Hq1 as (w1' & Hq1 & Hf1 & Hdel1).
    apply Hold in Hq2 as (w2' & Hq2 & Hf2 & Hdel2).
    eapply H2; [exact Hq1|exact Hq2|congruence..].
  - intros fd Hfree.
    assert (fd <> w_fd w) as Hne.
    { intros ->. eapply (Hfree p); [apply lookup_insert_eq|done|done]. }
    rewrite update_other by done. apply H3.
    intros q wq Hq Hdq. destruct (decide (q = p)) as [->|Hqp].
    + rewrite Hw in Hq. inversion Hq; subst. congruence.
    + eapply Hfree; [|exact Hdq]. by rewrite lookup_insert_ne.
  - intros q [wq Hq]. apply H4. destruct (decide (q = p)) as [->|Hne].
    + by exists w.
    + rewrite lookup_insert_ne in Hq by done. by exists wq.
Qed.

Lemma parity_inv_new fd ev cb data mem_ok (st st' : State B) r :
  parity_inv st -> fd_free st fd = true ->
  watch_new B fd ev cb data mem_ok true st = Some (r, st') -> parity_inv st'.
Proof.
  intros Hinv Hfree Hn.
  apply watch_new_inv in Hn as [(_ & _ & ->)|(_ & _ & Hu)]; [done|].
  destruct Hinv as [H1 H2 H3 H4].
  assert (watches st !! brk st = None) as Hfresh.
  { destruct (watches st !! brk st) eqn:Hb; [|done].
    assert (brk st < brk st)%positive by (apply H4; by eexists). lia. }
  pose proof (proj1 (fd_free_spec st fd) Hfree) as Hfd.
  eapply parity_inv_update; [| |exact Hu].
  - split; simpl.
    + intros q wq Hq Hdq. simpl in *.
      destruct (decide (q = brk st)) as [->|Hne].
      * rewrite lookup_insert_eq in Hq. inversion Hq; subst. simpl.
        by apply H3.
      * rewrite lookup_insert_ne in Hq by done. by eapply H1.
    + intros q1 q2 w1 w2 Hq1 Hq2 Hd1 Hd2 Heq.
      destruct (decide (q1 = brk st)) as [->|Hn1];
        destruct (decide (q2 = brk st)) as [->|Hn2]; [done|..].
      * rewrite lookup_insert_eq in Hq1. inversion Hq1; subst.
        rewrite lookup_insert_ne in Hq2 by done. simpl in Heq.
        exfalso. by eapply Hfd.
      * rewrite lookup_insert_eq in Hq2. inversion Hq2; subst.
        rewrite lookup_insert_ne in Hq1 by done. simpl in Heq.
        exfalso. by eapply Hfd.
      * rewrite lookup_insert_ne in Hq1, Hq2 by done. by eapply H2.
    + intros fd' Hfree'. apply H3. intros q wq Hq Hdq.
      eapply Hfree'; [|exact Hdq].
      rewrite lookup_insert_ne; [done|]. intros <-. congruence.
    + intros q [wq Hq]. destruct (decide (q = brk st)) as [->|Hne]; [lia|].
      rewrite lookup_insert_ne in Hq by done.
      assert (q < brk st)%positive by (apply H4; by eexists). lia.
  - unfold live. simpl. by rewrite lookup_insert_eq.
Qed.

Lemma parity_inv_free p (st st' : State B) :
  parity_inv st -> live st p = true ->
  watch_free B p true st = Some st' -> parity_inv st'.
Proof.
  intros [H1 H2 H3 H4] Hlive Hf.
  apply watch_free_inv in Hf as (w & Hw & ->).
  apply live_spec in Hlive as (w' & Hw' & Hd).
  rewrite Hw in Hw'. inversion Hw'; subst w'; clear Hw'.
  set (w2 := match orphaned_watches st with
             | Some _ => set_w_next B (orphaned_watches st) (set_w_deleted B true w)
             | None => set_w_deleted B true w
             end).
  assert (w_deleted w2 = true /\ w_fd w2 = w_fd w) as [Hd2 Hf2]
    by (unfold w2; by destruct (orphaned_watches st)).
  split; simpl.
  - intros q wq Hq Hdq. simpl in *.
    destruct (decide (q = p)) as [->|Hne].
    + rewrite lookup_insert_eq in Hq. inversion Hq; subst. congruence.
    + rewrite lookup_insert_ne in Hq by done.
      rewrite release_other; [by eapply H1|].
      intros Heq. apply Hne. by eapply H2.
  - intros q1 q2 w1 w2' Hq1 Hq2 Hd1 Hd2' Hfd.
    destruct (decide (q1 = p)) as [->|Hn1].
    { rewrite lookup_insert_eq in Hq1. inversion Hq1; subst. congruence. }
    destruct (decide (q2 = p)) as [->|Hn2].
    { rewrite lookup_insert_eq in Hq2. inversion Hq2; subst. congruence. }
    rewrite lookup_insert_ne in Hq1, Hq2 by done. by eapply H2.
  - intros fd Hfree. destruct (decide (fd = w_fd w)) as [->|Hne].
    + apply release_same. by eapply H1.
    + rewrite release_other by done. apply H3.
      intros q wq Hq Hdq. destruct (decide (q = p)) as [->|Hqp].
      * rewrite Hw in Hq. inversion Hq; subst. congruence.
      * eapply Hfree; [|exact Hdq]. by rewrite lookup_insert_ne.
  - intros q [wq Hq]. apply H4. destruct (decide (q = p)) as [->|Hne].
    + by exists w.
    + rewrite lookup_insert_ne in Hq by done. by exists wq.
Qed.

Lemma parity_inv_emit e (st : State B) : parity_inv st -> parity_inv (emit B e st).
Proof. apply parity_inv_frame; simpl; (done || lia). Qed.

Lemma parity_inv_call c (st st' : State B) :
  parity_inv st -> legal st c = true -> ctl_accepted c = true ->
  exec_call B c st = Some st' -> parity_inv st'.
Proof.
  intros Hinv Hlegal Hok Hc. destruct c; simpl in *; subst.
  - destruct (watch_new B fd events cb data mem_ok true st) as [[r st1]|] eqn:Hn;
      simpl in Hc; [|done].
    inversion Hc; subst. apply parity_inv_emit. by eapply parity_inv_new.
  - destruct (watch_update B w events true st) as [st1|] eqn:Hu;
      simpl in Hc; [|done].
    inversion Hc; subst. apply parity_inv_emit. by eapply parity_inv_update.
  - destruct (watch_free B w true st) as [st1|] eqn:Hf; simpl in Hc; [|done].
    inversion Hc; subst. apply parity_inv_emit. by eapply parity_inv_free.
  - pose proof (timeout_new_inv B tv cb data mem_ok st) as (_ & Hw & Hb & Hk & _).
    destruct (timeout_new B tv cb data mem_ok st) as [r st1].
    inversion Hc; subst. apply parity_inv_emit.
    by eapply parity_inv_frame.
  - destruct (timeout_update B t tv st) as [st1|] eqn:Hu; simpl in Hc; [|done].
    inversion Hc; subst. apply parity_inv_emit.
    apply timeout_update_inv in Hu as (_ & Hw & Hb & Hk & _).
    eapply parity_inv_frame; [done..|lia|done].
  - destruct (timeout_free B t st) as [st1|] eqn:Hf; simpl in Hc; [|done].
    inversion Hc; subst. apply parity_inv_emit.
    apply timeout_free_inv in Hf as (_ & Hw & Hb & Hk & _).
    eapply parity_inv_frame; [done..|lia|done].
  - inversion Hc; subst. apply parity_inv_emit.
    eapply parity_inv_frame; [..|exact Hinv]; simpl; (done || lia).
Qed.

Lemma parity_inv_calls cs :
  forall (st st' : State B),
    parity_inv st -> contract B cs st = true ->
    forallb ctl_accepted cs = true ->
    run_calls B cs st = Some st' -> parity_inv st'.
Proof.
  induction cs as [|c cs IH]; intros st st' Hinv Hcon Hok Hrun; simpl in *.
  - by inversion Hrun; subst.
  - apply andb_true_iff in Hcon as [Hlegal Hcon].
    apply andb_true_iff in Hok as [Hokc Hok].
    destruct (exec_call B c st) as [st1|] eqn:Hc; simpl in Hrun; [|done].
    eapply IH; [|exact Hcon|exact Hok|exact Hrun].
    by eapply parity_inv_call.
Qed.

End Parity.

(** *** The two kernels keep their side *)

Lemma epoll_registered_init fd : Epoll.registered ∅ fd = 0.
Proof. unfold Epoll.registered. by rewrite lookup_empty. Qed.

Lemma epoll_update_same p (w : MHD_Watch Z) ev k :
  Epoll.registered k (w_fd w) = w_mask w ->
  Epoll.registered (snd (Epoll.watch_update p w ev true k)) (w_fd w)
  = fst (Epoll.watch_update p w ev true k).
Proof.
  intros Hreg. unfold Epoll.watch_update.
  set (e := Z.lor _ _). cbn [Epoll.events].
  destruct (e =? w_mask w); [done|].
  unfold Epoll.epoll_ctl, Epoll.registered. cbn [fst snd].
  destruct ((0 =? w_mask w) && negb (e =? 0)).
  { by rewrite lookup_insert_eq. }
  destruct (negb (w_mask w =? 0) && (0 =? e)) eqn:Hdel.
  - rewrite lookup_delete_eq.
    apply andb_true_iff in Hdel as [_ He]. apply Z.eqb_eq in He. done.
  - by rewrite lookup_insert_eq.
Qed.

Lemma epoll_update_other p (w : MHD_Watch Z) ev ok k fd :
  fd <> w_fd w ->
  Epoll.registered (snd (Epoll.watch_update p w ev ok k)) fd
  = Epoll.registered k fd.
Proof.
  intros Hne. unfold Epoll.watch_update.
  set (e := Z.lor _ _). cbn [Epoll.events].
  destruct (e =? w_mask w); [done|].
  unfold Epoll.epoll_ctl, Epoll.registered. destruct ok; [|done]. cbn [fst snd].
  destruct ((0 =? w_mask w) && negb (e =? 0)).
  { by rewrite lookup_insert_ne. }
  destruct (negb (w_mask w =? 0) && (0 =? e)).
  - by rewrite lookup_delete_ne.
  - by rewrite lookup_insert_ne.
Qed.

Lemma epoll_release_same p (w : MHD_Watch Z) k :
  Epoll.registered k (w_fd w) = w_mask w ->
  Epoll.registered (Epoll.watch_release p w true k) (w_fd w) = 0.
Proof.
  intros Hreg. unfold Epoll.watch_release.
  destruct (w_mask w =? 0) eqn:Hz.
  - apply Z.eqb_eq in Hz. congruence.
  - unfold Epoll.registered. simpl. by rewrite lookup_delete_eq.
Qed.

Lemma epoll_release_other p (w : MHD_Watch Z) ok k fd :
  fd <> w_fd w ->
  Epoll.registered (Epoll.watch_release p w ok k) fd = Epoll.registered k fd.
Proof.
  intros Hne. unfold Epoll.watch_release.
  destruct (w_mask w =? 0); [done|].
  unfold Epoll.registered, Epoll.epoll_ctl. destruct ok; [|done]. simpl.
  by rewrite lookup_delete_ne.
Qed.

Lemma kqueue_registered_init fd :
  Kqueue.registered ∅ fd = Kqueue.MkEnables false false.
Proof. unfold Kqueue.registered. by rewrite !lookup_empty. Qed.

Ltac kq_lookup :=
  repeat first
    [ rewrite lookup_insert_eq
    | rewrite lookup_delete_eq
    | rewrite lookup_insert_ne by (unfold EVFILT_READ, EVFILT_WRITE; congruence)
    | rewrite lookup_delete_ne by (unfold EVFILT_READ, EVFILT_WRITE; congruence) ].

Lemma kqueue_update_same p (w : MHD_Watch Kqueue.enables) ev k :
  Kqueue.registered k (w_fd w) = w_mask w ->
  Kqueue.registered (snd (Kqueue.watch_update p w ev true k)) (w_fd w)
  = fst (Kqueue.watch_update p w ev true k).
Proof.
  intros Hreg. unfold Kqueue.watch_update, Kqueue.kevent.
  destruct (w_mask w) as [r0 w0]. unfold Kqueue.registered in *.
  inversion Hreg as [[Hr Hw]]. cbn [Kqueue.enable_read Kqueue.enable_write fst snd].
  destruct (negb (Z.land ev MHD_WATCH_IN =? 0)), (negb (Z.land ev MHD_WATCH_OUT =? 0)),
    (bool_decide (is_Some (k !! (w_fd w, EVFILT_READ)))) eqn:Hbr,
    (bool_decide (is_Some (k !! (w_fd w, EVFILT_WRITE)))) eqn:Hbw;
    cbn [Bool.eqb app foldl Kqueue.apply_change Kqueue.c_flags Kqueue.c_ident
         Kqueue.c_filter Kqueue.c_udata];
    kq_lookup; rewrite ?Hbr, ?Hbw; try reflexivity.
  all: f_equal; try (apply bool_decide_eq_true; by eexists); try (apply bool_decide_eq_false; by intros [? ?]).
Qed.

Lemma kqueue_update_other p (w : MHD_Watch Kqueue.enables) ev ok k fd :
  fd <> w_fd w ->
  Kqueue.registered (snd (Kqueue.watch_update p w ev ok k)) fd
  = Kqueue.registered k fd.
Proof.
  intros Hne. unfold Kqueue.watch_update, Kqueue.kevent, Kqueue.registered.
  destruct ok; [|done]. cbn [fst snd].
  destruct (negb (Z.land ev MHD_WATCH_IN =? 0)),
    (negb (Z.land ev MHD_WATCH_OUT =? 0)),
    (Kqueue.enable_read (w_mask w)), (Kqueue.enable_write (w_mask w));
    cbn [Bool.eqb app foldl Kqueue.apply_change Kqueue.c_flags Kqueue.c_ident
         Kqueue.c_filter Kqueue.c_udata];
    repeat first [ rewrite lookup_insert_ne by congruence
                 | rewrite lookup_delete_ne by congruence ];
    reflexivity.
Qed.

Lemma kqueue_release_same p (w : MHD_Watch Kqueue.enables) k :
  Kqueue.registered k (w_fd w) = w_mask w ->
  Kqueue.registered (Kqueue.watch_release p w true k) (w_fd w)
  = Kqueue.MkEnables false false.
Proof.
  intros Hreg. unfold Kqueue.watch_release, Kqueue.kevent.
  destruct (w_mask w) as [r0 w0]. unfold Kqueue.registered in *.
  inversion Hreg as [[Hr Hw]]. cbn [Kqueue.enable_read Kqueue.enable_write].
  destruct (bool_decide (is_Some (k !! (w_fd w, EVFILT_READ)))) eqn:Hbr,
    (bool_decide (is_Some (k !! (w_fd w, EVFILT_WRITE)))) eqn:Hbw;
    cbn [app snd foldl Kqueue.apply_change Kqueue.c_flags Kqueue.c_ident
         Kqueue.c_filter Kqueue.c_udata];
    kq_lookup; rewrite ?Hbr, ?Hbw; try reflexivity.
  all: f_equal; apply bool_decide_eq_false; by intros [? ?].
Qed.

Lemma kqueue_release_other p (w : MHD_Watch Kqueue.enables) ok k fd :
  fd <> w_fd w ->
  Kqueue.registered (Kqueue.watch_release p w ok k) fd = Kqueue.registered k fd.
Proof.
  intros Hne. unfold Kqueue.watch_release, Kqueue.kevent, Kqueue.registered.
  destruct (Kqueue.enable_read (w_mask w)), (Kqueue.enable_write (w_mask w)),
    ok;
    cbn [app snd foldl Kqueue.apply_change Kqueue.c_flags Kqueue.c_ident
         Kqueue.c_filter Kqueue.c_udata];
    repeat first [ rewrite lookup_insert_ne by congruence
                 | rewrite lookup_delete_ne by congruence ];
    reflexivity.
Qed.

Lemma parity_inv_backend (kind : backend_kind) (fd0 : Z) (cs : list api_call)
  (st' : State (backend_of kind)) :
  contract (backend_of kind) cs (event_manager_init (backend_of kind) fd0) = true ->
  forallb ctl_accepted cs = true ->
  run_calls (backend_of kind) cs (event_manager_init (backend_of kind) fd0)
  = Some st' ->
  parity_inv st'.
Proof.
  intros Hcon Hok Hrun. destruct kind.
  - eapply (parity_inv_calls Epoll.backend); [..|exact Hcon|exact Hok|exact Hrun].
    + exact epoll_update_same.
    + exact epoll_update_other.
    + exact epoll_release_same.
    + exact epoll_release_other.
    + apply parity_inv_init. exact epoll_registered_init.
  - eapply (parity_inv_calls Kqueue.backend); [..|exact Hcon|exact Hok|exact Hrun].
    + exact kqueue_update_same.
    + exact kqueue_update_other.
    + exact kqueue_release_same.
    + exact kqueue_release_other.
    + apply parity_inv_init. exact kqueue_registered_init.
Qed.



(** ** No dispatch after free *)

Section Free.

Variable B : Backend.
Variable host : Host (budget_t B).

Lemma calls_precede_frees_spec (l : list (log_entry (budget_t B))) :
  calls_precede_frees l -> no_call_after_free l.
Proof.
  induction l as [|e l IH]; intros Hl l1 l2 w ok r Heq.
  - by destruct l1.
  - destruct l1 as [|e1 l1]; [apply not_elem_of_nil|].
    simpl in Heq. inversion Heq; subst; clear Heq.
    destruct Hl as [He Hl].
    assert (w ∉ watch_calls l1) as Hrest by (by eapply IH).
    assert (w ∈ freed_list (l1 ++ LApi (CallWatchFree w ok) r :: l2)) as Hin.
    { unfold freed_list. rewrite omap_app. apply elem_of_app. right.
      simpl. apply elem_of_cons. by left. }
    destruct e1; simpl; try done.
    rewrite not_elem_of_cons. split; [|done]. intros <-. done.
Qed.

Lemma free_inv_init fd : free_inv (event_manager_init B fd).
Proof.
  split; simpl.
  - intros p [w H]. by rewrite lookup_empty in H.
  - intros p H. by apply elem_of_nil in H.
  - done.
Qed.

(** A step that logs nothing, hands out addresses upwards only and
    leaves tombstones in place keeps the invariant. *)
Lemma free_inv_step (st st' : State B) :
  log st' = log st -> (brk st <= brk st')%positive ->
  (forall p, is_Some (watches st' !! p) -> (p < brk st')%positive) ->
  (forall p w', (p < brk st)%positive -> watches st' !! p = Some w' ->
     exists w, watches st !! p = Some w /\
               (w_deleted w = true -> w_deleted w' = true)) ->
  free_inv st -> free_inv st'.
Proof.
  intros Hlog Hbrk Hfresh Hold [H1 H2 H3]. split.
  - done.
  - rewrite Hlog. intros p Hp. destruct (H2 p Hp) as [Hlt Hdel].
    split; [lia|]. intros w' Hw'.
    destruct (Hold p w' Hlt Hw') as (w & Hw & Himp). by apply Himp, Hdel.
  - by rewrite Hlog.
Qed.

Lemma free_inv_frame (st st' : State B) :
  watches st' = watches st -> (brk st <= brk st')%positive ->
  log st' = log st -> free_inv st -> free_inv st'.
Proof.
  intros Hw Hb Hl Hinv. apply (free_inv_step st); [done..| | |done].
  - rewrite Hw. intros p Hp. pose proof (fi_fresh Hinv p Hp). lia.
  - rewrite Hw. intros p w' _ Hp. by exists w'.
Qed.

Lemma free_inv_emit e (st : State B) :
  plain_entry e -> free_inv st -> free_inv (emit B e st).
Proof.
  intros He [H1 H2 H3].
  assert (freed_list (e :: log st) = freed_list (log st)) as Hfl.
  { destruct e as [c r| | | | |]; try done. by destruct c. }
  split.
  - exact H1.
  - intros p Hp. change (p ∈ freed_list (e :: log st)) in Hp.
    rewrite Hfl in Hp. exact (H2 p Hp).
  - change (calls_precede_frees (e :: log st)). split; [|done]. by destruct e.
Qed.

Lemma free_inv_emit_free p ok r (st : State B) :
  (p < brk st)%positive ->
  (forall w, watches st !! p = Some w -> w_deleted w = true) ->
  free_inv st -> free_inv (emit B (LApi (CallWatchFree p ok) r) st).
Proof.
  intros Hlt Hdel [H1 H2 H3]. split; simpl.
  - done.
  - intros q Hq. apply elem_of_cons in Hq as [->|Hq]; [done|by apply H2].
  - done.
Qed.

Lemma free_inv_emit_cb p fd ev d (st : State B) :
  live st p = true -> free_inv st -> free_inv (emit B (LWatchCb p fd ev d) st).
Proof.
  intros Hlive [H1 H2 H3]. split; simpl; [done|done|]. split; [|done].
  intros Hin. destruct (H2 p Hin) as [_ Hdel].
  unfold live in Hlive. destruct (watches st !! p) as [w|]; [|done].
  rewrite (Hdel w eq_refl) in Hlive. done.
Qed.

Lemma free_inv_update p ev ok (st st' : State B) :
  free_inv st -> watch_update B p ev ok st = Some st' -> free_inv st'.
Proof.
  intros Hinv Hu. apply watch_update_inv in Hu as (w & Hw & ->).
  apply (free_inv_step st); simpl; [done|lia| | |done].
  - intros q [wq Hq]. apply (fi_fresh Hinv).
    destruct (decide (q = p)) as [->|Hne]; [by eexists|].
    rewrite lookup_insert_ne in Hq by done. by eexists.
  - intros q wq _ Hq. destruct (decide (q = p)) as [->|Hne].
    + rewrite lookup_insert_eq in Hq. inversion Hq; subst. by exists w.
    + rewrite lookup_insert_ne in Hq by done. by exists wq.
Qed.

Lemma free_inv_call c (st st' : State B) :
  free_inv st -> exec_call B c st = Some st' -> free_inv st'.
Proof.
  intros Hinv Hc. destruct c; simpl in Hc.
  - destruct (watch_new B fd events cb data mem_ok ctl_ok st) as [[r st1]|] eqn:Hn;
      simpl in Hc; [|done].
    inversion Hc; subst; clear Hc. apply free_inv_emit; [done|].
    apply watch_new_inv in Hn as [(_ & _ & ->)|(_ & _ & Hu)]; [done|].
    eapply free_inv_update; [|exact Hu].
    apply (free_inv_step st); simpl; [done|lia| | |done].
    + intros q [wq Hq]. destruct (decide (q = brk st)) as [->|Hne]; [lia|].
      rewrite lookup_insert_ne in Hq by done.
      assert (q < brk st)%positive by (apply (fi_fresh Hinv); by eexists). lia.
    + intros q wq Hlt Hq. rewrite lookup_insert_ne in Hq by lia. by exists wq.
  - destruct (watch_update B w events ctl_ok st) as [st1|] eqn:Hu;
      simpl in Hc; [|done].
    inversion Hc; subst. apply free_inv_emit; [done|]. by eapply free_inv_update.
  - destruct (watch_free B w ctl_ok st) as [st1|] eqn:Hf; simpl in Hc; [|done].
    inversion Hc; subst; clear Hc.
    apply watch_free_inv in Hf as (w0 & Hw & ->).
    apply free_inv_emit_free; simpl.
    + apply (fi_fresh Hinv). by eexists.
    + intros w'. rewrite lookup_insert_eq. intros Heq. inversion Heq; subst.
      by destruct (orphaned_watches st).
    + apply (free_inv_step st); simpl; [done|lia| | |done].
      * intros q [wq Hq]. apply (fi_fresh Hinv).
        destruct (decide (q = w)) as [->|Hne]; [by eexists|].
        rewrite lookup_insert_ne in Hq by done. by eexists.
      * intros q wq _ Hq. destruct (decide (q = w)) as [->|Hne].
        -- rewrite lookup_insert_eq in Hq. inversion Hq; subst.
           exists w0. split; [done|]. by destruct (orphaned_watches st).
        -- rewrite lookup_insert_ne in Hq by done. by exists wq.
  - pose proof (timeout_new_inv B tv cb data mem_ok st) as (Hl & Hw & Hb & _).
    destruct (timeout_new B tv cb data mem_ok st) as [r st1].
    inversion Hc; subst. apply free_inv_emit; [done|]. by eapply free_inv_frame.
  - destruct (timeout_update B t tv st) as [st1|] eqn:Hu; simpl in Hc; [|done].
    inversion Hc; subst. apply free_inv_emit; [done|].
    apply timeout_update_inv in Hu as (Hl & Hw & Hb & _).
    eapply free_inv_frame; [done|lia|done|done].
  - destruct (timeout_free B t st) as [st1|] eqn:Hf; simpl in Hc; [|done].
    inversion Hc; subst. apply free_inv_emit; [done|].
    apply timeout_free_inv in Hf as (Hl & Hw & Hb & _).
    eapply free_inv_frame; [done|lia|done|done].
  - inversion Hc; subst. apply free_inv_emit; [done|].
    eapply free_inv_frame; [..|exact Hinv]; simpl; (done || lia).
Qed.

Lemma free_inv_reap_from fuel :
  forall w (st st' : State B),
    free_inv st -> reap_from B fuel w st = Some st' -> free_inv st'.
Proof.
  induction fuel as [|fuel IH]; intros [p|] st st' Hinv H; simpl in H;
    try done; try (by inversion H; subst).
  destruct (watches st !! p) as [tmp|] eqn:Hp; simpl in H; [|done].
  eapply IH; [|exact H]. apply free_inv_emit; [done|].
  apply (free_inv_step st); simpl; [done|lia| | |done].
  - intros q [wq Hq]. apply (fi_fresh Hinv).
    destruct (decide (q = p)) as [->|Hne].
    + by rewrite lookup_delete_eq in Hq.
    + rewrite lookup_delete_ne in Hq by done. by eexists.
  - intros q wq _ Hq. destruct (decide (q = p)) as [->|Hne].
    + by rewrite lookup_delete_eq in Hq.
    + rewrite lookup_delete_ne in Hq by done. by exists wq.
Qed.

Lemma free_inv_reap (st st' : State B) :
  free_inv st -> reap B st = Some st' -> free_inv st'.
Proof.
  unfold reap. intros Hinv H.
  destruct (reap_from B (S (size (watches st))) (orphaned_watches st) st)
    as [st1|] eqn:Hr; simpl in H; [|done].
  inversion H; subst.
  eapply free_inv_frame; [..|eapply free_inv_reap_from; [exact Hinv|exact Hr]];
    simpl; (done || lia).
Qed.

Lemma free_inv_reachable fd steps (st' : State B) :
  run_app B host steps (event_manager_init B fd) = Some st' -> free_inv st'.
Proof.
  intros Hrun.
  eapply (run_app_keeps B host free_inv); [..|apply free_inv_init|exact Hrun].
  - intros c st st1. apply free_inv_call.
  - intros st p w ev Hinv Hw Hd. apply free_inv_emit_cb; [|done].
    unfold live. by rewrite Hw, Hd.
  - intros st p d. by apply free_inv_emit.
  - intros st p t Hinv _. eapply free_inv_frame; [..|exact Hinv]; simpl; (done || lia).
  - intros st b. by apply free_inv_emit.
  - intros st st1. apply free_inv_reap.
  - intros st v Hinv. eapply free_inv_frame; [..|exact Hinv]; simpl; (done || lia).
  - intros st Hinv. eapply free_inv_frame; [| | |apply free_inv_emit; [|exact Hinv]];
      simpl; (done || lia).
Qed.

(** An event whose cookie is a tombstoned watch is dropped. *)
Lemma tombstoned_event_dropped e (st : State B) w :
  watches st !! ev_udata B e = Some w -> w_deleted w = true ->
  dispatch_event B host e st = Some st.
Proof.
  intros Hw Hd. unfold dispatch_event.
  destruct (ev_error B e); [done|].
  rewrite Hw. simpl. rewrite Hd. simpl. rewrite Hw. simpl. by rewrite Hd.
Qed.

(** C2.  In whatever the application does with a fresh event manager
    (calls into the table, runs of the loop with any host callbacks and
    any wait results), no callback of a watch is invoked after that
    watch was handed to [watch_free], also when later events of the same
    wait still carry its cookie; and the dispatch drops every event
    whose cookie is a tombstoned watch. *)
Theorem no_dispatch_after_free fd steps (st' : State B) :
  run_app B host steps (event_manager_init B fd) = Some st' ->
  no_call_after_free (log st') /\
  forall e w, watches st' !! ev_udata B e = Some w -> w_deleted w = true ->
    dispatch_event B host e st' = Some st'.
Proof.
  intros Hrun. split.
  - apply calls_precede_frees_spec.
    by apply (fi_order (free_inv_reachable fd steps st' Hrun)).
  - intros e w. apply tombstoned_event_dropped.
Qed.

End Free.

Lemma no_dispatch_after_free_witness :
  no_call_after_free (log free_state) /\
  forall e w,
    watches free_state !! ev_udata Epoll.backend e = Some w ->
    w_deleted w = true ->
    dispatch_event Epoll.backend (busy Z) e free_state = Some free_state.
Proof.
  apply (no_dispatch_after_free Epoll.backend (busy Z) 3
           (free_calls ++ [AppLoop (B := Epoll.backend) [free_turn]])).
  reflexivity.
Defined.

(** ** The reap *)

Section Reap.

Variable B : Backend.
Variable host : Host (budget_t B).

(** A chain depends on the [next] fields of its own nodes only. *)
Lemma chain_ext (h h' : gmap ptr (MHD_Watch (mask_t B))) l :
  forall o,
    (forall q w, q ∈ l -> h !! q = Some w ->
       exists w', h' !! q = Some w' /\ w_next w' = w_next w) ->
    chain h o l -> chain h' o l.
Proof.
  induction l as [|p l IH]; intros o Hext Hc; simpl in *; [done|].
  destruct Hc as (-> & w & Hw & Hc). split; [done|].
  destruct (Hext p w) as (w' & Hw' & Hn); [apply elem_of_cons; by left|done|].
  exists w'. split; [done|]. rewrite Hn. apply IH; [|done].
  intros q wq Hq. apply Hext. apply elem_of_cons. by right.
Qed.

Lemma chain_nil (h : gmap ptr (MHD_Watch (mask_t B))) l :
  chain h None l -> l = [].
Proof. destruct l; [done|]. by intros [? _]. Qed.

Lemma reap_inv_init fd : reap_inv (event_manager_init B fd).
Proof.
  split; simpl.
  - exists []. split; [done|]. split; [constructor|].
    intros p. split; [by intros H%elem_of_nil|].
    intros (w & H & _). by rewrite lookup_empty in H.
  - intros p w H. by rewrite lookup_empty in H.
  - intros p w H. by rewrite lookup_empty in H.
  - intros p [w H]. by rewrite lookup_empty in H.
Qed.

Lemma reap_inv_frame (st st' : State B) :
  watches st' = watches st -> orphaned_watches st' = orphaned_watches st ->
  (brk st <= brk st')%positive ->
  (forall p, p ∈ freed_list (log st) -> p ∈ freed_list (log st')) ->
  reap_inv st -> reap_inv st'.
Proof.
  intros Hw Ho Hb Hl [H1 H2 H3 H4]. split.
  - rewrite Hw, Ho. exact H1.
  - rewrite Hw. exact H2.
  - rewrite Hw. intros p w Hp Hd. apply Hl. by eapply H3.
  - rewrite Hw. intros p Hp. specialize (H4 p Hp). lia.
Qed.

Lemma freed_list_emit e (st : State B) p :
  p ∈ freed_list (log st) -> p ∈ freed_list (log (emit B e st)).
Proof.
  intros Hp. change (p ∈ freed_list (e :: log st)).
  destruct e as [c r| | | | |]; try done.
  destruct c; try done. apply elem_of_cons. by right.
Qed.

Lemma reap_inv_emit e (st : State B) : reap_inv st -> reap_inv (emit B e st).
Proof.
  apply reap_inv_frame; [reflexivity|reflexivity|simpl; lia|].
  intros p. apply freed_list_emit.
Qed.

(** A store to a watch that keeps its tombstone flag and its [next]. *)
Lemma reap_inv_store p w w' (st : State B) :
  watches st !! p = Some w ->
  w_deleted w' = w_deleted w -> w_next w' = w_next w ->
  reap_inv st -> reap_inv (set_watches B (<[p := w']> (watches st)) st).
Proof.
  intros Hw Hd Hn [(l & Hc & Hnd & Hiff) H2 H3 H4].
  assert (forall q wq, <[p := w']> (watches st) !! q = Some wq ->
            exists wq0, watches st !! q = Some wq0 /\
              w_deleted wq = w_deleted wq0 /\ w_next wq = w_next wq0) as Hold.
  { intros q wq Hq. destruct (decide (q = p)) as [->|Hne].
    - rewrite lookup_insert_eq in Hq. inversion Hq; subst. by exists w.
    - rewrite lookup_insert_ne in Hq by done. by exists wq. }
  assert (forall q wq0, watches st !! q = Some wq0 ->
            exists wq, <[p := w']> (watches st) !! q = Some wq /\
              w_deleted wq = w_deleted wq0 /\ w_next wq = w_next wq0) as Hnew.
  { intros q wq0 Hq. destruct (decide (q = p)) as [->|Hne].
    - rewrite lookup_insert_eq. exists w'. rewrite Hw in Hq.
      by inversion Hq; subst.
    - rewrite lookup_insert_ne by done. by exists wq0. }
  split; simpl.
  - exists l. split; [|split; [done|]].
    + eapply chain_ext; [|exact Hc]. intros q wq _ Hq.
      destruct (Hnew q wq Hq) as (wq' & ? & ? & ?). by exists wq'.
    + intros q. rewrite Hiff. split.
      * intros (wq & Hq & Hdq). destruct (Hnew q wq Hq) as (wq' & ? & ? & ?).
        exists wq'. split; [done|congruence].
      * intros (wq & Hq & Hdq). destruct (Hold q wq Hq) as (wq' & ? & ? & ?).
        exists wq'. split; [done|congruence].
  - intros q wq Hq Hdq. destruct (Hold q wq Hq) as (wq' & Hq' & Hd' & Hn').
    rewrite Hn'. eapply H2; [exact Hq'|congruence].
  - intros q wq Hq Hdq. destruct (Hold q wq Hq) as (wq' & Hq' & Hd' & Hn').
    eapply H3; [exact Hq'|congruence].
  - intros q [wq Hq]. destruct (Hold q wq Hq) as (wq' & Hq' & _).
    apply H4. by eexists.
Qed.

Lemma reap_inv_update p ev ok (st st' : State B) :
  reap_inv st -> watch_update B p ev ok st = Some st' -> reap_inv st'.
Proof.
  intros Hinv Hu. apply watch_update_inv in Hu as (w & Hw & ->).
  eapply reap_inv_frame;
    [..|eapply (reap_inv_store p w); [exact Hw| | |exact Hinv]];
    simpl; (done || lia).
Qed.

(** [malloc] and the initialisation of a watch. *)
Lemma reap_inv_alloc fd cb data m (st : State B) :
  reap_inv st ->
  reap_inv (set_brk B (Pos.succ (brk st))
              (set_watches B
                 (<[brk st := MkWatch fd cb data m false None]> (watches st)) st)).
Proof.
  intros [(l & Hc & Hnd & Hiff) H2 H3 H4].
  assert (watches st !! brk st = None) as Hfresh.
  { destruct (watches st !! brk st) eqn:Hb; [|done].
    assert (brk st < brk st)%positive by (apply H4; by eexists). lia. }
  split; simpl.
  - exists l. split; [|split; [done|]].
    + eapply chain_ext; [|exact Hc]. intros q wq _ Hq.
      exists wq. split; [|done]. rewrite lookup_insert_ne; [done|].
      intros <-. congruence.
    + intros q. rewrite Hiff. split.
      * intros (wq & Hq & Hdq). exists wq. split; [|done].
        rewrite lookup_insert_ne; [done|]. intros <-. congruence.
      * intros (wq & Hq & Hdq). destruct (decide (q = brk st)) as [->|Hne].
        -- rewrite lookup_insert_eq in Hq. inversion Hq; subst. done.
        -- rewrite lookup_insert_ne in Hq by done. by exists wq.
  - intros q wq Hq Hdq. destruct (decide (q = brk st)) as [->|Hne].
    + rewrite lookup_insert_eq in Hq. by inversion Hq; subst.
    + rewrite lookup_insert_ne in Hq by done. by eapply H2.
  - intros q wq Hq Hdq. destruct (decide (q = brk st)) as [->|Hne].
    + rewrite lookup_insert_eq in Hq. inversion Hq; subst. done.
    + rewrite lookup_insert_ne in Hq by done. by eapply H3.
  - intros q [wq Hq]. destruct (decide (q = brk st)) as [->|Hne]; [lia|].
    rewrite lookup_insert_ne in Hq by done.
    assert (q < brk st)%positive by (apply H4; by eexists). lia.
Qed.

(** [watch_free] of a watch that was not freed before. *)
Lemma reap_inv_free p ok r (st st' : State B) :
  reap_inv st -> p ∉ freed_list (log st) ->
  watch_free B p ok st = Some st' ->
  reap_inv (emit B (LApi (CallWatchFree p ok) r) st').
Proof.
  intros [(l & Hc & Hnd & Hiff) H2 H3 H4] Hnew Hf.
  apply watch_free_inv in Hf as (w & Hw & ->).
  assert (w_deleted w = false) as Hd.
  { destruct (w_deleted w) eqn:Hd; [|done]. exfalso. apply Hnew. by eapply H3. }
  assert (p ∉ l) as Hpl.
  { intros Hin. apply Hiff in Hin as (w' & Hw' & Hd'). congruence. }
  set (w2 := match orphaned_watches st with
             | Some _ => set_w_next B (orphaned_watches st) (set_w_deleted B true w)
             | None => set_w_deleted B true w
             end).
  assert (w_deleted w2 = true) as Hd2
    by (unfold w2; by destruct (orphaned_watches st)).
  assert (w_next w2 = orphaned_watches st) as Hn2.
  { unfold w2. destruct (orphaned_watches st) eqn:Ho; [done|].
    simpl. by eapply H2. }
  split; simpl.
  - exists (p :: l). split; [|split].
    + simpl. split; [done|]. exists w2. rewrite lookup_insert_eq.
      split; [done|]. rewrite Hn2. eapply chain_ext; [|exact Hc].
      intros q wq Hq Hwq. exists wq. split; [|done].
      rewrite lookup_insert_ne; [done|]. by intros <-.
    + by constructor.
    + intros q. rewrite elem_of_cons, Hiff. split.
      * intros [->|(wq & Hq & Hdq)].
        -- exists w2. by rewrite lookup_insert_eq.
        -- exists wq. split; [|done]. rewrite lookup_insert_ne; [done|].
           intros <-. congruence.
      * intros (wq & Hq & Hdq). destruct (decide (q = p)) as [->|Hne];
          [by left|right].
        rewrite lookup_insert_ne in Hq by done. by exists wq.
  - intros q wq Hq Hdq. destruct (decide (q = p)) as [->|Hne].
    + rewrite lookup_insert_eq in Hq. inversion Hq; subst. congruence.
    + rewrite lookup_insert_ne in Hq by done. by eapply H2.
  - intros q wq Hq Hdq. apply elem_of_cons.
    destruct (decide (q = p)) as [->|Hne]; [by left|right].
    rewrite lookup_insert_ne in Hq by done. by eapply H3.
  - intros q [wq Hq]. apply H4. destruct (decide (q = p)) as [->|Hne].
    + by exists w.
    + rewrite lookup_insert_ne in Hq by done. by exists wq.
Qed.


Lemma reap_ok_emit e (st : State B) :
  plain_entry e -> reap_ok st -> reap_ok (emit B e st).
Proof.
  intros He Hok Hnd. apply reap_inv_emit, Hok.
  change (NoDup (freed_list (e :: log st))) in Hnd.
  destruct e as [c r| | | | |]; try done. by destruct c.
Qed.

Lemma reap_ok_frame (st st' : State B) :
  watches st' = watches st -> orphaned_watches st' = orphaned_watches st ->
  (brk st <= brk st')%positive -> log st' = log st ->
  reap_ok st -> reap_ok st'.
Proof.
  intros Hw Ho Hb Hl Hok Hnd. rewrite Hl in Hnd.
  eapply reap_inv_frame; [done..| |by apply Hok]. by rewrite Hl.
Qed.

Lemma reap_ok_call c (st st' : State B) :
  reap_ok st -> exec_call B c st = Some st' -> reap_ok st'.
Proof.
  intros Hok Hc. destruct c; simpl in Hc.
  - destruct (watch_new B fd events cb data mem_ok ctl_ok st) as [[r st1]|] eqn:Hn;
      simpl in Hc; [|done].
    inversion Hc; subst; clear Hc. apply reap_ok_emit; [done|].
    apply watch_new_inv in Hn as [(_ & _ & ->)|(_ & _ & Hu)]; [done|].
    intros Hnd. eapply reap_inv_update; [|exact Hu].
    apply reap_inv_alloc, Hok.
    by apply watch_update_inv in Hu as (w0 & _ & ->).
  - destruct (watch_update B w events ctl_ok st) as [st1|] eqn:Hu;
      simpl in Hc; [|done].
    inversion Hc; subst. apply reap_ok_emit; [done|].
    intros Hnd. eapply reap_inv_update; [|exact Hu]. apply Hok.
    by apply watch_update_inv in Hu as (w0 & _ & ->).
  - destruct (watch_free B w ctl_ok st) as [st1|] eqn:Hf; simpl in Hc; [|done].
    inversion Hc; subst; clear Hc. intros Hnd.
    assert (log st1 = log st) as Hl
      by (by apply watch_free_inv in Hf as (w0 & _ & ->)).
    change (NoDup (freed_list (LApi (CallWatchFree w ctl_ok) None :: log st1)))
      in Hnd.
    simpl in Hnd. apply NoDup_cons in Hnd as [Hnin Hnd]. rewrite Hl in *.
    eapply reap_inv_free; [by apply Hok|done|done].
  - pose proof (timeout_new_inv B tv cb data mem_ok st) as (Hl & Hw & Hb & _ & Ho & _).
    destruct (timeout_new B tv cb data mem_ok st) as [r st1].
    inversion Hc; subst. apply reap_ok_emit; [done|]. by eapply reap_ok_frame.
  - destruct (timeout_update B t tv st) as [st1|] eqn:Hu; simpl in Hc; [|done].
    inversion Hc; subst. apply reap_ok_emit; [done|].
    apply timeout_update_inv in Hu as (Hl & Hw & Hb & _ & Ho & _).
    eapply reap_ok_frame; [done|done|lia|done|done].
  - destruct (timeout_free B t st) as [st1|] eqn:Hf; simpl in Hc; [|done].
    inversion Hc; subst. apply reap_ok_emit; [done|].
    apply timeout_free_inv in Hf as (Hl & Hw & Hb & _ & Ho & _).
    eapply reap_ok_frame; [done|done|lia|done|done].
  - inversion Hc; subst. apply reap_ok_emit; [done|].
    eapply reap_ok_frame; [..|exact Hok]; simpl; (done || lia).
Qed.

(** The walk of the reap frees the nodes of the chain and no other. *)
Lemma reap_from_chain fuel :
  forall l o (st st' : State B),
    chain (watches st) o l -> NoDup l ->
    reap_from B fuel o st = Some st' ->
    (forall q, q ∈ l -> watches st' !! q = None) /\
    (forall q, q ∉ l -> watches st' !! q = watches st !! q) /\
    brk st' = brk st.
Proof.
  induction fuel as [|fuel IH]; intros l o st st' Hc Hnd Hr.
  - destruct o as [p|]; [done|]. apply chain_nil in Hc as ->.
    inversion Hr; subst. split; [by intros q H%elem_of_nil|done].
  - destruct o as [p|].
    + destruct l as [|p' l]; [done|]. destruct Hc as (Heq & w & Hw & Hc).
      inversion Heq; subst p'; clear Heq.
      apply NoDup_cons in Hnd as [Hpl Hnd]. simpl in Hr. rewrite Hw in Hr.
      simpl in Hr.
      apply (IH l) in Hr as (Hin & Hout & Hb); [|simpl|done].
      * simpl in *. split; [|split; [|done]].
        -- intros q Hq. apply elem_of_cons in Hq as [->|Hq]; [|by apply Hin].
           rewrite Hout by done. apply lookup_delete_eq.
        -- intros q Hq. apply not_elem_of_cons in Hq as [Hne Hq].
           rewrite Hout by done. by apply lookup_delete_ne.
      * eapply chain_ext; [|exact Hc]. intros q wq Hq Hwq.
        exists wq. split; [|done]. rewrite lookup_delete_ne; [done|].
        by intros <-.
    + apply chain_nil in Hc as ->. inversion Hr; subst.
      split; [by intros q H%elem_of_nil|done].
Qed.

Lemma reap_inv_reap (st st' : State B) :
  reap_inv st -> reap B st = Some st' ->
  orphaned_watches st' = None /\ no_tombstone st' /\ reap_inv st'.
Proof.
  unfold reap. intros [(l & Hc & Hnd & Hiff) H2 H3 H4] Hr.
  destruct (reap_from B (S (size (watches st))) (orphaned_watches st) st)
    as [st1|] eqn:Hr1; simpl in Hr; [|done].
  inversion Hr; subst; clear Hr.
  destruct (reap_from_chain _ _ _ _ _ Hc Hnd Hr1) as (Hin & Hout & Hb).
  assert (forall q wq, watches st1 !! q = Some wq ->
            watches st !! q = Some wq /\ w_deleted wq = false) as Hleft.
  { intros q wq Hq. destruct (decide (q ∈ l)) as [Hl|Hl].
    - rewrite Hin in Hq by done. done.
    - rewrite Hout in Hq by done. split; [done|].
      destruct (w_deleted wq) eqn:Hd; [|done].
      exfalso. apply Hl, Hiff. by exists wq. }
  split; [done|]. split.
  - intros q wq Hq. simpl in Hq. by apply Hleft in Hq as [_ ?].
  - split; simpl.
    + exists []. split; [done|]. split; [constructor|].
      intros q. split; [by intros H%elem_of_nil|].
      intros (wq & Hq & Hd). apply Hleft in Hq as [_ ?]. congruence.
    + intros q wq Hq Hd. apply Hleft in Hq as [Hq _]. by eapply H2.
    + intros q wq Hq Hd. apply Hleft in Hq as [_ ?]. congruence.
    + intros q [wq Hq]. apply Hleft in Hq as [Hq _]. rewrite Hb.
      apply H4. by eexists.
Qed.




End Reap.



(** * Further properties of the code *)

(** ** The timeout list *)

(** X1.  The scan at the head of each turn yields the earliest armed
    timeout of the list: when it finds one, that instant is the trigger
    of an armed timeout of the list and no armed timeout of the list is
    earlier; when it finds none, no timeout of the list is armed. *)
Theorem earliest_is_least_armed (B : Backend) (st : State B) r l :
  earliest B st = Some r -> timeout_list st = Some l ->
  match r with
  | None =>
      forall p tm, p ∈ l -> timeouts st !! p = Some tm ->
        timerisset (trigger_time tm) = false
  | Some tv =>
      (exists p tm, p ∈ l /\ timeouts st !! p = Some tm /\
                    trigger_time tm = tv /\ timerisset tv = true) /\
      forall p tm, p ∈ l -> timeouts st !! p = Some tm ->
        timerisset (trigger_time tm) = true ->
        timercmp_lt (trigger_time tm) tv = false
  end.
Proof.
  unfold earliest, timeout_list. intros He Hw.
  pose proof (earliest_from_minimum _ _ _ _ _ _ He Hw) as H.
  destruct r as [tv|].
  - destruct H as ([Hf|Hsrc] & Hmin & _); [done|]. by split.
  - by destruct H.
Qed.

Lemma earliest_is_least_armed_witness :
  (exists p tm, p ∈ [1%positive; 2%positive] /\
                timeouts two_timeouts !! p = Some tm /\
                trigger_time tm = Timeval 4 0 /\
                timerisset (Timeval 4 0) = true) /\
  forall p tm, p ∈ [1%positive; 2%positive] ->
    timeouts two_timeouts !! p = Some tm ->
    timerisset (trigger_time tm) = true ->
    timercmp_lt (trigger_time tm) (Timeval 4 0) = false.
Proof.
  apply (earliest_is_least_armed Epoll.backend two_timeouts
           (Some (Timeval 4 0)) [1%positive; 2%positive]).
  - reflexivity.
  - reflexivity.
Defined.

Lemma sweep_from_not_due (B : Backend) (host : Host (budget_t B)) now fuel :
  forall t (st : State B) l,
    walk_from fuel (timeouts st) t = Some l ->
    (forall p tm, p ∈ l -> timeouts st !! p = Some tm ->
       timercmp_lt (trigger_time tm) now = false) ->
    sweep_from B host fuel now t st = Some st.
Proof.
  induction fuel as [|fuel IH]; intros [p|] st l Hw Hdue; simpl in *;
    try done.
  destruct (timeouts st !! p) as [tm|] eqn:Hp; simpl in *; [|done].
  destruct (walk_from fuel (timeouts st) (t_next tm)) as [l'|] eqn:Hw';
    simpl in Hw; [|done].
  inversion Hw; subst; clear Hw.
  rewrite (Hdue p tm) by (done || apply elem_of_cons; by left).
  eapply IH; [exact Hw'|].
  intros q tq Hq. apply Hdue. apply elem_of_cons. by right.
Qed.

(** X2.  The sweep never fires early: when no timeout of the list has
    its trigger strictly before the clock, the sweep invokes no
    callback and changes nothing.  A trigger equal to the clock is not
    before it. *)
Theorem sweep_spares_timeouts_not_due (B : Backend) (host : Host (budget_t B))
  now (st : State B) l :
  timeout_list st = Some l ->
  (forall p tm, p ∈ l -> timeouts st !! p = Some tm ->
     timercmp_lt (trigger_time tm) now = false) ->
  sweep B host now st = Some st.
Proof. unfold timeout_list, sweep. apply sweep_from_not_due. Qed.

Lemma sweep_spares_timeouts_not_due_witness :
  sweep Epoll.backend (quiet Z) (Timeval 4 0) two_timeouts = Some two_timeouts.
Proof.
  apply (sweep_spares_timeouts_not_due Epoll.backend (quiet Z) (Timeval 4 0)
           two_timeouts [1%positive; 2%positive]).
  - reflexivity.
  - intros p tm Hp Hl.
    apply elem_of_cons in Hp as [->|Hp];
      [|apply list_elem_of_singleton in Hp as ->];
      (assert (Some tm = timeouts two_timeouts !! _) as Heq by (by symmetry));
      inversion Heq; reflexivity.
Defined.

Section TimeoutList.

Variable B : Backend.
Variable host : Host (budget_t B).

(** The reap touches the watches and the log only. *)
Lemma reap_from_fields fuel :
  forall w (st st' : State B), reap_from B fuel w st = Some st' ->
    timeouts st' = timeouts st /\ em_fd st' = em_fd st /\ stop st' = stop st /\
    timeout_head st' = timeout_head st /\ timeout_tail st' = timeout_tail st /\
    kernel st' = kernel st.
Proof.
  induction fuel as [|fuel IH]; intros [p|] st st' H; simpl in H;
    try done; try (by inversion H; subst).
  destruct (watches st !! p) as [tmp|]; simpl in H; [|done].
  by apply IH in H.
Qed.

Lemma reap_fields (st st' : State B) :
  reap B st = Some st' ->
  timeouts st' = timeouts st /\ em_fd st' = em_fd st /\ stop st' = stop st /\
  timeout_head st' = timeout_head st /\ timeout_tail st' = timeout_tail st /\
  kernel st' = kernel st.
Proof.
  unfold reap. intros H.
  destruct (reap_from B (S (size (watches st))) (orphaned_watches st) st)
    as [st1|] eqn:Hr; simpl in H; [|done].
  inversion H; subst. simpl. by eapply reap_from_fields.
Qed.

Lemma next_null_insert (h : gmap ptr MHD_Timeout) p t :
  t_next t = None -> next_null h -> next_null (<[p := t]> h).
Proof.
  intros Ht Hh q tq Hq. destruct (decide (q = p)) as [->|Hne].
  - rewrite lookup_insert_eq in Hq. by inversion Hq; subst.
  - rewrite lookup_insert_ne in Hq by done. by eapply Hh.
Qed.

Lemma next_null_delete (h : gmap ptr MHD_Timeout) p :
  next_null h -> next_null (delete p h).
Proof.
  intros Hh q tq Hq. destruct (decide (q = p)) as [->|Hne].
  - by rewrite lookup_delete_eq in Hq.
  - rewrite lookup_delete_ne in Hq by done. by eapply Hh.
Qed.

Lemma next_null_store_previous q v (st st' : State B) :
  next_null (timeouts st) -> store_previous B q v st = Some st' ->
  next_null (timeouts st').
Proof.
  unfold store_previous. intros Hh H.
  destruct q as [a|]; simpl in H; [|done].
  destruct (timeouts st !! a) as [t|] eqn:Ha; simpl in H; [|done].
  inversion H; subst. simpl. apply next_null_insert; [|done].
  simpl. by eapply Hh.
Qed.

Lemma next_null_store_next q (st st' : State B) :
  next_null (timeouts st) -> store_next B q None st = Some st' ->
  next_null (timeouts st').
Proof.
  unfold store_next. intros Hh H.
  destruct q as [a|]; simpl in H; [|done].
  destruct (timeouts st !! a) as [t|] eqn:Ha; simpl in H; [|done].
  inversion H; subst. simpl. by apply next_null_insert.
Qed.

Lemma next_null_timeout_free p (st st' : State B) :
  next_null (timeouts st) -> timeout_free B p st = Some st' ->
  next_null (timeouts st').
Proof.
  unfold timeout_free. intros Hh H.
  destruct (timeouts st !! p) as [t|] eqn:Hp; simpl in H; [|done].
  rewrite (Hh p t Hp) in H.
  match type of H with (?m ≫= _) = _ => destruct m as [st1|] eqn:H1 end;
    simpl in H; [|done].
  inversion H; subst; clear H. simpl. apply next_null_delete.
  destruct (bool_decide (timeout_head st = Some p) &&
            bool_decide (timeout_tail st = Some p)).
  { by inversion H1; subst. }
  destruct (bool_decide (timeout_head st = Some p)).
  { eapply next_null_store_previous; [|exact H1]. done. }
  destruct (bool_decide (timeout_tail st = Some p)).
  { destruct (store_next B (t_previous t) None st) as [st2|] eqn:H2;
      simpl in H1; [|done].
    inversion H1; subst. simpl. by eapply next_null_store_next. }
  destruct (store_next B (t_previous t) None st) as [st2|] eqn:H2;
    simpl in H1; done.
Qed.

Lemma next_null_call c (st st' : State B) :
  next_null (timeouts st) -> exec_call B c st = Some st' ->
  next_null (timeouts st').
Proof.
  intros Hh Hc. destruct c; simpl in Hc.
  - destruct (watch_new B fd events cb data mem_ok ctl_ok st) as [[r st1]|] eqn:Hn;
      simpl in Hc; [|done].
    inversion Hc; subst; clear Hc. simpl.
    apply watch_new_inv in Hn as [(_ & _ & ->)|(_ & _ & Hu)]; [done|].
    by apply watch_update_inv in Hu as (w0 & _ & ->).
  - destruct (watch_update B w events ctl_ok st) as [st1|] eqn:Hu;
      simpl in Hc; [|done].
    inversion Hc; subst. simpl.
    by apply watch_update_inv in Hu as (w0 & _ & ->).
  - destruct (watch_free B w ctl_ok st) as [st1|] eqn:Hf; simpl in Hc; [|done].
    inversion Hc; subst. simpl.
    by apply watch_free_inv in Hf as (w0 & _ & ->).
  - unfold timeout_new in Hc. destruct mem_ok; [|by inversion Hc; subst].
    destruct (timeout_head st); inversion Hc; subst; simpl;
      by apply next_null_insert.
  - unfold timeout_update in Hc.
    destruct (timeouts st !! t) as [t0|] eqn:Ht; simpl in Hc; [|done].
    inversion Hc; subst. simpl. apply next_null_insert; [|done].
    simpl. by eapply Hh.
  - destruct (timeout_free B t st) as [st1|] eqn:Hf; simpl in Hc; [|done].
    inversion Hc; subst. simpl. by eapply next_null_timeout_free.
  - by inversion Hc; subst.
Qed.

Lemma next_null_reachable fd steps (st' : State B) :
  run_app B host steps (event_manager_init B fd) = Some st' ->
  next_null (timeouts st').
Proof.
  intros Hrun.
  eapply (run_app_keeps B host (fun s => next_null (timeouts s)));
    [..|exact Hrun].
  - intros c st st1. apply next_null_call.
  - done.
  - done.
  - intros st p t Hh Hp. simpl. apply next_null_insert; [|done].
    simpl. by eapply Hh.
  - done.
  - intros st st1 Hh Hr. by apply reap_fields in Hr as (-> & _).
  - done.
  - done.
  - intros p t H. simpl in H. by rewrite lookup_empty in H.
Qed.

(** X3.  However the timeouts were created, updated and freed since
    [event_manager_init], and whatever the loop did, the list that the
    scan and the sweep walk from [timeout_head] holds one timeout at
    most: no [next] field is ever set to a timeout. *)
Theorem reachable_timeout_list_short fd steps (st' : State B) l :
  run_app B host steps (event_manager_init B fd) = Some st' ->
  timeout_list st' = Some l -> (length l <= 1)%nat.
Proof.
  intros Hrun Hl. pose proof (next_null_reachable fd steps st' Hrun) as Hh.
  unfold timeout_list in Hl. simpl in Hl.
  destruct (timeout_head st') as [p|]; [|inversion Hl; subst; simpl; lia].
  destruct (timeouts st' !! p) as [tm|] eqn:Hp; simpl in Hl; [|done].
  rewrite (Hh p tm Hp) in Hl.
  destruct (size (timeouts st')); simpl in Hl; inversion Hl; subst; simpl; lia.
Qed.

End TimeoutList.

Lemma reachable_timeout_list_short_witness :
  (length [1%positive] <= 1)%nat.
Proof.
  apply (reachable_timeout_list_short Epoll.backend (quiet Z) 3 two_news
           two_news_state).
  - reflexivity.
  - reflexivity.
Defined.

(** X4.  On an empty list, [timeout_new] followed by [timeout_free] of
    the timeout it returned is defined and leaves the list empty again,
    with the memory of the timeout released. *)
Theorem timeout_new_free_round_trip (B : Backend) (st : State B) tv cb data :
  timeout_head st = None -> timeouts st !! brk st = None ->
  exists st',
    timeout_free B (brk st) (snd (timeout_new B tv cb data true st)) = Some st' /\
    timeout_head st' = None /\ timeout_tail st' = None /\
    timeouts st' = timeouts st /\ timeout_list st' = Some [].
Proof.
  intros Hh Hfresh. unfold timeout_new, timeout_free. rewrite Hh.
  cbn [snd timeouts set_timeouts set_timeout_tail set_timeout_head set_brk
       timeout_head timeout_tail].
  rewrite lookup_insert_eq. cbn [mbind option_bind].
  rewrite !bool_decide_eq_true_2 by done. cbn [andb mbind option_bind].
  eexists. split; [reflexivity|].
  cbn [timeouts set_timeouts set_timeout_tail set_timeout_head set_brk
       timeout_head timeout_tail].
  split; [done|]. split; [done|]. split; [by apply delete_insert_id|].
  reflexivity.
Qed.

Lemma timeout_new_free_round_trip_witness :
  exists st',
    timeout_free Epoll.backend (brk (event_manager_init Epoll.backend 3))
      (snd (timeout_new Epoll.backend (Timeval 5 0) 0 0 true
              (event_manager_init Epoll.backend 3))) = Some st' /\
    timeout_head st' = None /\ timeout_tail st' = None /\
    timeouts st' = timeouts (event_manager_init Epoll.backend 3) /\
    timeout_list st' = Some [].
Proof.
  apply (timeout_new_free_round_trip Epoll.backend
           (event_manager_init Epoll.backend 3)).
  - reflexivity.
  - reflexivity.
Defined.

(** X5.  After two calls of [timeout_new] on an empty list,
    [timeout_free] of the first timeout has no defined behaviour: the
    first timeout is the head and not the tail, its [next] is [NULL],
    and the branch for the head stores through [timeout->next]. *)
Theorem timeout_free_head_dereferences_null (B : Backend) (st : State B)
  tv1 tv2 cb1 cb2 d1 d2 :
  timeout_head st = None ->
  timeout_free B (brk st)
    (snd (timeout_new B tv2 cb2 d2 true
            (snd (timeout_new B tv1 cb1 d1 true st)))) = None.
Proof.
  intros Hh. unfold timeout_new at 2. rewrite Hh.
  cbn [snd]. unfold timeout_new.
  cbn [timeout_head set_timeouts set_timeout_tail set_timeout_head set_brk
       snd brk timeouts timeout_tail].
  unfold timeout_free.
  cbn [timeout_head set_timeouts set_timeout_tail set_timeout_head set_brk
       snd brk timeouts timeout_tail].
  assert (Pos.succ (brk st) <> brk st) as Hne by lia.
  rewrite lookup_insert_ne by done. rewrite lookup_insert_eq.
  cbn [mbind option_bind t_next].
  rewrite bool_decide_eq_true_2 by done.
  rewrite (bool_decide_eq_false_2 (Some (Pos.succ (brk st)) = Some (brk st)))
    by congruence.
  reflexivity.
Qed.

Lemma timeout_free_head_dereferences_null_witness :
  timeout_free Epoll.backend (brk (event_manager_init Epoll.backend 3))
    (snd (timeout_new Epoll.backend (Timeval 4 0) 0 0 true
            (snd (timeout_new Epoll.backend (Timeval 9 0) 0 0 true
                    (event_manager_init Epoll.backend 3))))) = None.
Proof.
  apply (timeout_free_head_dereferences_null Epoll.backend
           (event_manager_init Epoll.backend 3)).
  reflexivity.
Defined.

Lemma walk_from_ext fuel (h h' : gmap ptr MHD_Timeout) :
  (forall q, t_next <$> h' !! q = t_next <$> h !! q) ->
  forall t, walk_from fuel h' t = walk_from fuel h t.
Proof.
  intros Hext. induction fuel as [|fuel IH]; intros [p|]; simpl; try done.
  pose proof (Hext p) as Hp.
  destruct (h' !! p) as [tm'|], (h !! p) as [tm|]; simpl in *; try done.
  inversion Hp as [Hn]. by rewrite Hn, IH.
Qed.

(** X6.  [timeout_update] stores the new trigger instant, or the zero
    instant when it is handed [NULL], and changes nothing else: the
    other timeouts, the head, the tail and the list walked from the head
    are as before. *)
Theorem timeout_update_keeps_list (B : Backend) p tv (st st' : State B) :
  timeout_update B p tv st = Some st' ->
  trigger_time <$> timeouts st' !! p = Some (default timer_zero tv) /\
  (forall q, q <> p -> timeouts st' !! q = timeouts st !! q) /\
  timeout_head st' = timeout_head st /\ timeout_tail st' = timeout_tail st /\
  timeout_list st' = timeout_list st.
Proof.
  unfold timeout_update. intros H.
  destruct (timeouts st !! p) as [t|] eqn:Hp; simpl in H; [|done].
  inversion H; subst; clear H. simpl.
  split; [rewrite lookup_insert_eq; by destruct tv|].
  split; [intros q Hq; by rewrite lookup_insert_ne|].
  split; [done|]. split; [done|].
  unfold timeout_list. simpl.
  rewrite map_size_insert_Some by (by eexists).
  apply (walk_from_ext (S (size (timeouts st)))).
  intros q. destruct (decide (q = p)) as [->|Hne].
  - rewrite lookup_insert_eq, Hp. done.
  - by rewrite lookup_insert_ne.
Qed.

Lemma timeout_update_keeps_list_witness :
  exists st',
    timeout_update Epoll.backend 1 None two_timeouts = Some st' /\
    trigger_time <$> timeouts st' !! 1%positive = Some (default timer_zero None) /\
    (forall q, q <> 1%positive ->
       timeouts st' !! q = timeouts two_timeouts !! q) /\
    timeout_head st' = timeout_head two_timeouts /\
    timeout_tail st' = timeout_tail two_timeouts /\
    timeout_list st' = timeout_list two_timeouts.
Proof.
  eexists. split; [reflexivity|].
  apply (timeout_update_keeps_list Epoll.backend 1 None two_timeouts).
  reflexivity.
Defined.

(** ** Watches *)

(** X7.  [watch_update] is idempotent on both backends: a second call
    with the same interest leaves the manager and the kernel as the
    first call left them, whatever the kernel answered. *)
Theorem watch_update_idempotent (kind : backend_kind) p ev ok ok'
  (st st1 : State (backend_of kind)) :
  watch_update (backend_of kind) p ev ok st = Some st1 ->
  watch_update (backend_of kind) p ev ok' st1 = Some st1.
Proof.
  intros Hu. apply watch_update_inv in Hu as (w & Hw & ->).
  unfold watch_update. cbn [watches set_kernel set_watches kernel].
  rewrite lookup_insert_eq. cbn [mbind option_bind].
  destruct st as [fd th tt ow sp ws ts bk k lg]. simpl in *.
  destruct w as [wfd wcb wd wm wdel wn].
  destruct kind; simpl in *.
  - unfold Epoll.watch_update. simpl.
    set (e := Z.lor _ _).
    destruct (e =? wm) eqn:He.
    + apply Z.eqb_eq in He. subst wm. simpl. rewrite Z.eqb_refl. simpl.
      unfold set_kernel, set_watches, set_w_mask. simpl.
      by rewrite insert_insert_eq.
    + destruct (Epoll.epoll_ctl k _ wfd _ ok) as [r k'] eqn:Hctl. simpl.
      rewrite Z.eqb_refl. simpl.
      unfold set_kernel, set_watches, set_w_mask. simpl.
      by rewrite insert_insert_eq.
  - unfold Kqueue.watch_update, Kqueue.kevent. destruct wm as [r0 w0]. simpl.
    destruct (negb (Z.land ev MHD_WATCH_IN =? 0)),
      (negb (Z.land ev MHD_WATCH_OUT =? 0)), r0, w0, ok, ok'; simpl;
      unfold set_kernel, set_watches, set_w_mask; simpl;
      by rewrite insert_insert_eq.
Qed.

Lemma watch_update_idempotent_witness :
  watch_update (backend_of EPOLL) 1 (Z.lor MHD_WATCH_IN MHD_WATCH_OUT) false
    updated_state = Some updated_state.
Proof.
  apply (watch_update_idempotent EPOLL 1 (Z.lor MHD_WATCH_IN MHD_WATCH_OUT)
           true false stop_state).
  reflexivity.
Defined.

(** X8.  A watch handed to [watch_free] twice puts itself behind itself
    on the orphan list ([watch->next = watch]), and the reap that
    follows has no defined behaviour: it frees the watch and then reads
    [next] of the freed watch. *)
Theorem double_watch_free_breaks_reap (B : Backend) p ok1 ok2
  (st st1 st2 : State B) :
  watch_free B p ok1 st = Some st1 ->
  watch_free B p ok2 st1 = Some st2 ->
  w_next <$> watches st2 !! p = Some (Some p) /\ reap B st2 = None.
Proof.
  intros H1 H2.
  apply watch_free_inv in H1 as (w & Hw & ->).
  apply watch_free_inv in H2 as (w1 & Hw1 & ->).
  cbn [orphaned_watches set_orphaned_watches set_kernel set_watches watches]
    in *.
  split; [by rewrite lookup_insert_eq|].
  unfold reap. simpl. rewrite lookup_insert_eq. simpl.
  match goal with |- context [reap_from B ?n] => destruct n end; [done|].
  simpl. by rewrite lookup_delete_eq.
Qed.

Lemma double_watch_free_breaks_reap_witness :
  w_next <$> watches freed_twice !! 1%positive = Some (Some 1%positive) /\
  reap Epoll.backend freed_twice = None.
Proof.
  apply (double_watch_free_breaks_reap Epoll.backend 1 true true
           stop_state freed_once freed_twice).
  - reflexivity.
  - reflexivity.
Defined.

Lemma epoll_update_entries p (w : MHD_Watch Z) ev ok k :
  entries_not_empty k ->
  entries_not_empty (snd (Epoll.watch_update p w ev ok k)).
Proof.
  intros Hk. unfold Epoll.watch_update.
  set (e := Z.lor _ _). cbn [Epoll.events].
  destruct (e =? w_mask w) eqn:Heq; [done|]. apply Z.eqb_neq in Heq.
  unfold Epoll.epoll_ctl. destruct ok; [|done]. cbn [fst snd].
  assert (forall x, x <> 0 -> entries_not_empty (<[w_fd w := Epoll.MkEvent x p]> k))
    as Hins.
  { intros x Hx fd e0 Hl. destruct (decide (fd = w_fd w)) as [->|Hne].
    - rewrite lookup_insert_eq in Hl. by inversion Hl; subst.
    - rewrite lookup_insert_ne in Hl by done. by eapply Hk. }
  assert (entries_not_empty (delete (w_fd w) k)) as Hdel.
  { intros fd e0 Hl. destruct (decide (fd = w_fd w)) as [->|Hne].
    - by rewrite lookup_delete_eq in Hl.
    - rewrite lookup_delete_ne in Hl by done. by eapply Hk. }
  destruct ((0 =? w_mask w) && negb (e =? 0)) eqn:Hadd.
  { apply andb_true_iff in Hadd as [_ He].
    apply negb_true_iff, Z.eqb_neq in He. by apply Hins. }
  destruct (negb (w_mask w =? 0) && (0 =? e)) eqn:Hd; [done|].
  apply Hins. intros He0. rewrite He0 in *.
  destruct (Z.eqb_spec 0 (w_mask w)) as [Hm|Hm]; [congruence|].
  destruct (Z.eqb_spec (w_mask w) 0) as [Hm'|Hm']; [congruence|].
  simpl in Hd. done.
Qed.

Lemma epoll_release_entries p (w : MHD_Watch Z) ok k :
  entries_not_empty k -> entries_not_empty (Epoll.watch_release p w ok k).
Proof.
  intros Hk. unfold Epoll.watch_release, Epoll.epoll_ctl.
  destruct (w_mask w =? 0); [done|]. destruct ok; [|done]. simpl.
  intros fd e0 Hl. destruct (decide (fd = w_fd w)) as [->|Hne].
  - by rewrite lookup_delete_eq in Hl.
  - rewrite lookup_delete_ne in Hl by done. by eapply Hk.
Qed.

Lemma entries_not_empty_call c (st st' : State Epoll.backend) :
  entries_not_empty (kernel st) -> exec_call Epoll.backend c st = Some st' ->
  entries_not_empty (kernel st').
Proof.
  intros Hk Hc. destruct c; simpl in Hc.
  - destruct (watch_new Epoll.backend fd events cb data mem_ok ctl_ok st)
      as [[r st1]|] eqn:Hn; simpl in Hc; [|done].
    inversion Hc; subst; clear Hc. simpl.
    apply watch_new_inv in Hn as [(_ & _ & ->)|(_ & _ & Hu)]; [done|].
    apply watch_update_inv in Hu as (w0 & _ & ->). simpl.
    by apply epoll_update_entries.
  - destruct (watch_update Epoll.backend w events ctl_ok st) as [st1|] eqn:Hu;
      simpl in Hc; [|done].
    inversion Hc; subst. simpl.
    apply watch_update_inv in Hu as (w0 & _ & ->). simpl.
    by apply epoll_update_entries.
  - destruct (watch_free Epoll.backend w ctl_ok st) as [st1|] eqn:Hf;
      simpl in Hc; [|done].
    inversion Hc; subst. simpl.
    apply watch_free_inv in Hf as (w0 & _ & ->). simpl.
    by apply epoll_release_entries.
  - pose proof (timeout_new_inv Epoll.backend tv cb data mem_ok st)
      as (_ & _ & _ & Hker & _).
    destruct (timeout_new Epoll.backend tv cb data mem_ok st) as [r st1].
    inversion Hc; subst. simpl in *. by rewrite Hker.
  - destruct (timeout_update Epoll.backend t tv st) as [st1|] eqn:Hu;
      simpl in Hc; [|done].
    inversion Hc; subst. simpl.
    apply timeout_update_inv in Hu as (_ & _ & _ & -> & _). done.
  - destruct (timeout_free Epoll.backend t st) as [st1|] eqn:Hf;
      simpl in Hc; [|done].
    inversion Hc; subst. simpl.
    apply timeout_free_inv in Hf as (_ & _ & _ & -> & _). done.
  - by inversion Hc; subst.
Qed.

(** X9.  When the kernel accepted every change and the host kept its
    contract, the kernel holds no entry for a descriptor that has no
    live watch: the epoll table has no event for it and the kqueue
    table has neither of its filters.  What [watch_new] and
    [watch_update] registered, [watch_update] with an empty interest
    and [watch_free] removed. *)
Theorem kernel_clean_without_live_watch (kind : backend_kind) (fd0 fd : Z)
  (cs : list api_call) (st' : State (backend_of kind)) :
  contract (backend_of kind) cs (event_manager_init (backend_of kind) fd0) = true ->
  forallb ctl_accepted cs = true ->
  run_calls (backend_of kind) cs (event_manager_init (backend_of kind) fd0)
  = Some st' ->
  fd_free st' fd = true ->
  b_registered (backend_of kind) (kernel st') fd = mask_init (backend_of kind) /\
  unregistered kind (kernel st') fd.
Proof.
  intros Hcon Hok Hrun Hfree.
  pose proof (parity_inv_backend kind fd0 cs st' Hcon Hok Hrun) as Hinv.
  assert (b_registered (backend_of kind) (kernel st') fd
          = mask_init (backend_of kind)) as Hreg
    by (apply (inv_idle Hinv); by apply fd_free_spec).
  split; [done|]. destruct kind; simpl in *.
  - assert (entries_not_empty (kernel st')) as Hne.
    { refine (run_calls_keeps Epoll.backend
                (fun s => entries_not_empty (kernel s)) _ cs _ st' _ Hrun).
      - intros c s s1. apply entries_not_empty_call.
      - intros fd1 e1 Hl. simpl in Hl. by rewrite lookup_empty in Hl. }
    unfold Epoll.registered in Hreg.
    match type of Hreg with
    | match ?x with _ => _ end = _ => destruct x as [e|] eqn:Hl
    end; [|done].
    exfalso. exact (Hne fd e Hl Hreg).
  - unfold Kqueue.registered in Hreg.
    assert (forall a b, Kqueue.MkEnables a b = Kqueue.MkEnables false false ->
                        a = false /\ b = false) as Hinj
      by (intros a b Hab; by inversion Hab).
    apply Hinj in Hreg as [Hr Hw].
    apply bool_decide_eq_false in Hr. apply bool_decide_eq_false in Hw.
    split; by apply eq_None_not_Some.
Qed.

Lemma kernel_clean_without_live_watch_witness :
  b_registered (backend_of KQUEUE) (kernel released_state) 5
  = mask_init (backend_of KQUEUE) /\
  unregistered KQUEUE (kernel released_state) 5.
Proof.
  apply (kernel_clean_without_live_watch KQUEUE 3 5 released_calls).
  - reflexivity.
  - reflexivity.
  - reflexivity.
  - reflexivity.
Defined.

(** ** The loop *)

Section LoopControl.

Variable B : Backend.
Variable host : Host (budget_t B).

Lemma store_previous_control q v (st st' : State B) :
  store_previous B q v st = Some st' -> stop st' = stop st.
Proof.
  unfold store_previous. intros H.
  destruct q as [a|]; simpl in H; [|done].
  destruct (timeouts st !! a); simpl in H; [|done]. by inversion H.
Qed.

Lemma store_next_control q v (st st' : State B) :
  store_next B q v st = Some st' -> stop st' = stop st.
Proof.
  unfold store_next. intros H.
  destruct q as [a|]; simpl in H; [|done].
  destruct (timeouts st !! a); simpl in H; [|done]. by inversion H.
Qed.

Lemma timeout_free_control p (st st' : State B) :
  timeout_free B p st = Some st' -> stop st' = stop st.
Proof.
  unfold timeout_free. intros H.
  destruct (timeouts st !! p) as [t|]; simpl in H; [|done].
  match type of H with (?m ≫= _) = _ => destruct m as [st1|] eqn:H1 end;
    simpl in H; [|done].
  inversion H; subst; clear H. simpl.
  destruct (bool_decide (timeout_head st = Some p) &&
            bool_decide (timeout_tail st = Some p)).
  { by inversion H1; subst. }
  destruct (bool_decide (timeout_head st = Some p)).
  { by apply store_previous_control in H1. }
  destruct (bool_decide (timeout_tail st = Some p)).
  { destruct (store_next B (t_previous t) None st) as [st2|] eqn:H2;
      simpl in H1; [|done].
    apply store_next_control in H2. by inversion H1; subst. }
  destruct (store_next B (t_previous t) (t_next t) st) as [st2|] eqn:H2;
    simpl in H1; [|done].
  apply store_next_control in H2. apply store_previous_control in H1.
  congruence.
Qed.

(** No call of the table touches the descriptor of the backend, and
    [event_manager_stop] alone sets [stop]. *)
Lemma exec_call_control c (st st' : State B) :
  exec_call B c st = Some st' ->
  em_fd st' = em_fd st /\ (stop st' = true -> stop st = true \/ c = CallStop).
Proof.
  intros Hc. destruct c; simpl in Hc.
  - destruct (watch_new B fd events cb data mem_ok ctl_ok st) as [[r st1]|] eqn:Hn;
      simpl in Hc; [|done].
    inversion Hc; subst; clear Hc. simpl.
    apply watch_new_inv in Hn as [(_ & _ & ->)|(_ & _ & Hu)]; [by auto|].
    apply watch_update_inv in Hu as (w0 & _ & ->). simpl. by auto.
  - destruct (watch_update B w events ctl_ok st) as [st1|] eqn:Hu;
      simpl in Hc; [|done].
    inversion Hc; subst. simpl.
    apply watch_update_inv in Hu as (w0 & _ & ->). simpl. by auto.
  - destruct (watch_free B w ctl_ok st) as [st1|] eqn:Hf; simpl in Hc; [|done].
    inversion Hc; subst. simpl.
    apply watch_free_inv in Hf as (w0 & _ & ->). simpl. by auto.
  - unfold timeout_new in Hc. destruct mem_ok; [|inversion Hc; subst; by auto].
    destruct (timeout_head st); inversion Hc; subst; simpl; by auto.
  - unfold timeout_update in Hc.
    destruct (timeouts st !! t); simpl in Hc; [|done].
    inversion Hc; subst. simpl. by auto.
  - destruct (timeout_free B t st) as [st1|] eqn:Hf; simpl in Hc; [|done].
    inversion Hc; subst. simpl.
    pose proof (timeout_free_control _ _ _ Hf) as Hs.
    apply timeout_free_inv in Hf as (_ & _ & _ & _ & _ & Hfd).
    rewrite Hs, Hfd. by auto.
  - inversion Hc; subst. simpl. by auto.
Qed.

Lemma loop_from_rc script :
  forall (st st' : State B) rc,
    loop_from B host script st = Some (Returned rc st') ->
    (rc = 0 /\ stop st' = true) \/ rc = -1.
Proof.
  induction script as [|tn script IH]; intros st st' rc Hl; simpl in Hl.
  - destruct (stop st) eqn:Hs; inversion Hl; subst. by left.
  - destruct (stop st) eqn:Hs; [inversion Hl; subst; by left|].
    destruct (loop_turn B host tn st) as [[st1|rc1 st1]|] eqn:Ht;
      simpl in Hl; [by eapply IH| |done].
    apply loop_turn_return in Ht. inversion Hl; subst. by right.
Qed.

Lemma stop_logged_emit l0 e (s : State B) :
  stop_logged l0 s -> stop_logged l0 (emit B e s).
Proof.
  intros (new & Hl & Hs). exists (e :: new). split; [simpl; by rewrite Hl|].
  intros Hst. destruct (Hs Hst) as [r Hr]. exists r.
  apply elem_of_cons. by right.
Qed.

Lemma stop_logged_loop_from l0 script (st : State B) r :
  stop_logged l0 st -> loop_from B host script st = Some r ->
  stop_logged l0 (result_state r).
Proof.
  apply (loop_from_keeps B host (stop_logged l0)).
  - intros c s s' (new & Hl & Hs) Hc.
    destruct (exec_call_log B c s s' Hc) as (r0 & Hlog).
    destruct (exec_call_control c s s' Hc) as (_ & Hstop).
    exists (LApi c r0 :: new). split; [by rewrite Hlog, Hl|].
    intros Hst. destruct (Hstop Hst) as [Hold| ->].
    + destruct (Hs Hold) as [r1 Hr1]. exists r1. apply elem_of_cons. by right.
    + exists r0. apply elem_of_cons. by left.
  - intros s p w ev Hs _ _. by apply stop_logged_emit.
  - intros s p d Hs. by apply stop_logged_emit.
  - intros s p t Hs _. exact Hs.
  - intros s b Hs. by apply stop_logged_emit.
  - intros s s' (new & Hl & Hs) Hr.
    destruct (reap_log B s s' Hr) as (ps & Hlog).
    apply reap_fields in Hr as (_ & _ & Hstop & _).
    exists (map LFree ps ++ new). split; [by rewrite Hlog, Hl, app_assoc|].
    rewrite Hstop. intros Hst. destruct (Hs Hst) as [r1 Hr1]. exists r1.
    apply elem_of_app. by right.
  - intros s Hs. by apply (stop_logged_emit l0 (LClose (em_fd s)) s).
Qed.

(** X10.  [event_manager_loop] returns 0 or -1, and it returns 0 only
    when [event_manager_stop] was called after the loop was entered: a
    stop requested before the call is cleared at entry and lost. *)
Theorem loop_returns_zero_only_after_stop script (st st' : State B) rc :
  event_manager_loop B host script st = Some (Returned rc st') ->
  (rc = 0 \/ rc = -1) /\
  (rc = 0 ->
   exists new r, log st' = new ++ log st /\ LApi CallStop r ∈ new).
Proof.
  unfold event_manager_loop. intros Hl.
  destruct (em_fd (set_stop B false st) <? 0).
  { inversion Hl; subst. split; [by right|done]. }
  pose proof (stop_logged_loop_from (log st) script (set_stop B false st)
                (Returned rc st')) as Hlog.
  destruct (loop_from_rc _ _ _ _ Hl) as [[-> Hstop]| ->].
  - split; [by left|]. intros _.
    destruct Hlog as (new & Hnew & Hs); [by exists []|done|].
    destruct (Hs Hstop) as [r Hr]. by exists new, r.
  - split; [by right|done].
Qed.

Lemma handle_kept_by_turn tn (st : State B) r :
  loop_turn B host tn st = Some r -> em_fd (turn_state r) = em_fd st.
Proof.
  intros Ht.
  refine (loop_turn_keeps B host (fun s => em_fd s = em_fd st)
            _ _ _ _ _ _ tn st r eq_refl Ht); try done.
  - intros c s s' Hs Hc. apply exec_call_control in Hc as [-> _]. done.
  - intros s s' Hs Hr. apply reap_fields in Hr as (_ & -> & _). done.
Qed.

Lemma handle_loop_from script :
  forall (st : State B) r,
    loop_from B host script st = Some r ->
    match r with
    | Returned rc st' => em_fd st' = if rc =? 0 then -1 else em_fd st
    | Blocked st' => em_fd st' = em_fd st
    end.
Proof.
  induction script as [|tn script IH]; intros st r Hl; simpl in Hl.
  - destruct (stop st); by inversion Hl; subst.
  - destruct (stop st); [by inversion Hl; subst|].
    destruct (loop_turn B host tn st) as [[st1|rc1 st1]|] eqn:Ht;
      simpl in Hl; [| |done].
    + apply handle_kept_by_turn in Ht. simpl in Ht.
      apply IH in Hl. rewrite Ht in Hl. exact Hl.
    + pose proof (loop_turn_return _ _ _ _ _ _ Ht) as ->.
      apply handle_kept_by_turn in Ht. by inversion Hl; subst.
Qed.

(** X11.  The descriptor of the backend is closed exactly when the loop
    returns 0.  When the loop returns -1, or is still waiting, the
    descriptor is what it was at entry: no callback, no call of the
    table and no turn of the loop changes it. *)
Theorem handle_closed_exactly_on_clean_exit script (st : State B) r :
  event_manager_loop B host script st = Some r ->
  match r with
  | Returned rc st' => em_fd st' = if rc =? 0 then -1 else em_fd st
  | Blocked st' => em_fd st' = em_fd st
  end.
Proof.
  unfold event_manager_loop. intros Hl.
  destruct (em_fd (set_stop B false st) <? 0); [by inversion Hl; subst|].
  by apply handle_loop_from in Hl.
Qed.

End LoopControl.

Lemma loop_returns_zero_only_after_stop_witness :
  (0 = 0 \/ 0 = -1) /\
  (0 = 0 ->
   exists new r,
     log stopped_state = new ++ log stop_state /\ LApi CallStop r ∈ new).
Proof.
  apply (loop_returns_zero_only_after_stop Epoll.backend (busy Z) [stop_turn]
           stop_state stopped_state 0).
  reflexivity.
Defined.

Lemma handle_closed_exactly_on_clean_exit_witness :
  em_fd stopped_state = (if 0 =? 0 then -1 else em_fd stop_state).
Proof.
  apply (handle_closed_exactly_on_clean_exit Epoll.backend (busy Z)
           [stop_turn] stop_state (Returned 0 stopped_state)).
  reflexivity.
Defined.

Section Dispatch.

Variable B : Backend.
Variable host : Host (budget_t B).

Lemma run_calls_watch_events cs (st st' : State B) :
  run_calls B cs st = Some st' ->
  watch_events (log st') = watch_events (log st).
Proof.
  intros Hr.
  refine (run_calls_keeps B
            (fun s => watch_events (log s) = watch_events (log st))
            _ cs st st' eq_refl Hr).
  intros c s s' Hs Hc. apply exec_call_log in Hc as (r & ->). done.
Qed.

Lemma invoke_watch_events p ev (st st' : State B) :
  invoke_watch B host p ev st = Some st' ->
  watch_events (log st') = (p, ev) :: watch_events (log st).
Proof.
  unfold invoke_watch. intros H.
  destruct (watches st !! p) as [w|]; simpl in H; [|done].
  by apply run_calls_watch_events in H.
Qed.

(** X12.  The dispatch of one event invokes the callback of the watch
    that the cookie names and of no other, at most once with IN and at
    most once with OUT, and IN before OUT. *)
Theorem dispatch_event_calls e (st st' : State B) :
  dispatch_event B host e st = Some st' ->
  exists evs,
    watch_events (log st') = evs ++ watch_events (log st) /\
    (evs = [] \/
     evs = [(ev_udata B e, MHD_WATCH_IN)] \/
     evs = [(ev_udata B e, MHD_WATCH_OUT)] \/
     evs = [(ev_udata B e, MHD_WATCH_OUT); (ev_udata B e, MHD_WATCH_IN)]).
Proof.
  unfold dispatch_event. intros Hd.
  destruct (ev_error B e).
  { inversion Hd; subst. exists []. by auto. }
  destruct (watches st !! ev_udata B e) as [w|]; simpl in Hd; [|done].
  destruct (negb (w_deleted w) && ev_in B e).
  - destruct (invoke_watch B host (ev_udata B e) MHD_WATCH_IN st)
      as [st1|] eqn:H1; simpl in Hd; [|done].
    apply invoke_watch_events in H1.
    destruct (watches st1 !! ev_udata B e) as [w1|]; simpl in Hd; [|done].
    destruct (negb (w_deleted w1) && ev_out B e).
    + apply invoke_watch_events in Hd. rewrite Hd, H1.
      eexists [_; _]. split; [reflexivity|]. by auto.
    + inversion Hd; subst. rewrite H1.
      eexists [_]. split; [reflexivity|]. by auto.
  - simpl in Hd.
    destruct (watches st !! ev_udata B e) as [w1|]; simpl in Hd; [|done].
    destruct (negb (w_deleted w1) && ev_out B e).
    + apply invoke_watch_events in Hd. rewrite Hd.
      eexists [_]. split; [reflexivity|]. by auto.
    + inversion Hd; subst. exists []. by auto.
Qed.

End Dispatch.

Lemma dispatch_event_calls_witness :
  exists evs,
    watch_events (log both_after) = evs ++ watch_events (log free_start) /\
    (evs = [] \/
     evs = [(ev_udata Epoll.backend both_event, MHD_WATCH_IN)] \/
     evs = [(ev_udata Epoll.backend both_event, MHD_WATCH_OUT)] \/
     evs = [(ev_udata Epoll.backend both_event, MHD_WATCH_OUT);
            (ev_udata Epoll.backend both_event, MHD_WATCH_IN)]).
Proof.
  apply (dispatch_event_calls Epoll.backend (busy Z) both_event free_start).
  reflexivity.
Defined.

(** X13.  The [timespec] that the kqueue loop hands to [kevent] is
    always a valid one: its seconds are not negative and its
    nanoseconds lie between 0 and 999999999, whether a timeout is armed
    or not and whether its deadline has passed or not. *)
Theorem kqueue_timespec_is_valid (t now : timeval) :
  normalized t -> normalized now ->
  (0 <= Kqueue.ts_sec (Kqueue.wait_ts (Some t) now) /\
   0 <= Kqueue.ts_nsec (Kqueue.wait_ts (Some t) now) < 1000000000) /\
  (0 <= Kqueue.ts_sec (Kqueue.wait_ts None now) /\
   0 <= Kqueue.ts_nsec (Kqueue.wait_ts None now) < 1000000000).
Proof.
  intros Ht Hn. split; [|simpl; lia].
  unfold Kqueue.wait_ts.
  pose proof (timercmp_lt_usecs t now Ht Hn) as Hcmp.
  destruct (timersub_usecs t now Ht Hn) as [Hsub Hnorm].
  destruct (timercmp_lt t now) eqn:Hlt; simpl; [lia|].
  assert (usecs now <= usecs t) as Hpos.
  { destruct (Z.lt_ge_cases (usecs t) (usecs now)) as [Hc|Hc]; [|done].
    apply Hcmp in Hc. congruence. }
  unfold normalized, usecs in *. lia.
Qed.

Lemma kqueue_timespec_is_valid_witness :
  (0 <= Kqueue.ts_sec (Kqueue.wait_ts (Some (Timeval 30 1500)) (Timeval 10 250000)) /\
   0 <= Kqueue.ts_nsec (Kqueue.wait_ts (Some (Timeval 30 1500)) (Timeval 10 250000))
   < 1000000000) /\
  (0 <= Kqueue.ts_sec (Kqueue.wait_ts None (Timeval 10 250000)) /\
   0 <= Kqueue.ts_nsec (Kqueue.wait_ts None (Timeval 10 250000)) < 1000000000).
Proof.
  apply (kqueue_timespec_is_valid (Timeval 30 1500) (Timeval 10 250000)).
  - unfold normalized; simpl; lia.
  - unfold normalized; simpl; lia.
Defined.

Section Handles.

Variable B : Backend.
Variable host : Host (budget_t B).

Lemma handles_ok_init fd : handles_ok (event_manager_init B fd).
Proof.
  intros _. split; [apply reap_inv_init|]. intros q Hq.
  by apply elem_of_nil in Hq.
Qed.

(** A step that logs nothing and keeps the watches. *)
Lemma handles_ok_frame (st st' : State B) :
  watches st' = watches st -> orphaned_watches st' = orphaned_watches st ->
  (brk st <= brk st')%positive -> log st' = log st ->
  handles_ok st -> handles_ok st'.
Proof.
  intros Hw Ho Hb Hl Hok Hnd. rewrite Hl in Hnd.
  destruct (Hok Hnd) as [Hinv Hval]. split.
  - eapply reap_inv_frame; [done..| |done]. by rewrite Hl.
  - intros q. rewrite Hl, Hw. apply Hval.
Qed.

(** An entry that is neither a [watch_new] nor a [watch_free]. *)
Lemma handles_ok_emit e (st : State B) :
  match e with
  | LApi (CallWatchNew _ _ _ _ _ _) _ => False
  | LApi (CallWatchFree _ _) _ => False
  | _ => True
  end ->
  handles_ok st -> handles_ok (emit B e st).
Proof.
  intros He Hok Hnd.
  assert (freed_list (e :: log st) = freed_list (log st)) as Hfl.
  { destruct e as [c r| | | | |]; try done. by destruct c. }
  assert (watch_news (e :: log st) = watch_news (log st)) as Hwn.
  { destruct e as [c r| | | | |]; try done. by destruct c. }
  change (NoDup (freed_list (e :: log st))) in Hnd. rewrite Hfl in Hnd.
  destruct (Hok Hnd) as [Hinv Hval]. split; [by apply reap_inv_emit|].
  intros q Hq Hnf.
  change (q ∈ watch_news (e :: log st)) in Hq.
  change (q ∉ freed_list (e :: log st)) in Hnf.
  rewrite Hwn in Hq. rewrite Hfl in Hnf. by apply Hval.
Qed.

Lemma handles_ok_call c (st st' : State B) :
  handles_ok st -> exec_call B c st = Some st' -> handles_ok st'.
Proof.
  intros Hok Hc.
  assert (reap_ok st) as Hrok by (intros Hnd; by apply Hok).
  pose proof (reap_ok_call B c st st' Hrok Hc) as Hrok'.
  destruct c; simpl in Hc;
    try (solve [
      (* the calls on timeouts and [event_manager_stop] *)
      first
        [ pose proof (timeout_new_inv B tv cb data mem_ok st)
            as (Hl & Hw & Hb & _ & Ho & _);
          destruct (timeout_new B tv cb data mem_ok st) as [r st1];
          inversion Hc; subst; apply handles_ok_emit; [done|];
          by eapply handles_ok_frame
        | destruct (timeout_update B t tv st) as [st1|] eqn:Hu;
          simpl in Hc; [|done];
          inversion Hc; subst; apply handles_ok_emit; [done|];
          apply timeout_update_inv in Hu as (Hl & Hw & Hb & _ & Ho & _);
          eapply handles_ok_frame; [done|done|lia|done|done]
        | destruct (timeout_free B t st) as [st1|] eqn:Hf;
          simpl in Hc; [|done];
          inversion Hc; subst; apply handles_ok_emit; [done|];
          apply timeout_free_inv in Hf as (Hl & Hw & Hb & _ & Ho & _);
          eapply handles_ok_frame; [done|done|lia|done|done]
        | inversion Hc; subst; apply handles_ok_emit; [done|];
          eapply handles_ok_frame; [..|exact Hok]; simpl; (done || lia) ] ]).
  - (* watch_new *)
    destruct (watch_new B fd events cb data mem_ok ctl_ok st) as [[r st1]|] eqn:Hn;
      simpl in Hc; [|done].
    inversion Hc; subst; clear Hc. intros Hnd. split; [by apply Hrok'|].
    change (NoDup (freed_list (log st1))) in Hnd.
    apply watch_new_inv in Hn as [(_ & -> & ->)|(_ & -> & Hu)].
    { destruct (Hok Hnd) as [_ Hval]. intros q Hq Hnf. by apply Hval. }
    apply watch_update_inv in Hu as (w0 & Hw0 & ->).
    simpl in Hw0. rewrite lookup_insert_eq in Hw0.
    inversion Hw0; subst w0; clear Hw0. simpl in Hnd.
    destruct (Hok Hnd) as [Hinv Hval].
    intros q Hq Hnf. simpl in Hq, Hnf.
    change (q ∈ brk st :: watch_news (log st)) in Hq.
    change (q ∉ freed_list (log st)) in Hnf. simpl.
    apply elem_of_cons in Hq as [->|Hq].
    + rewrite lookup_insert_eq. by eexists.
    + destruct (Hval q Hq Hnf) as (w & Hw & Hd).
      assert (q < brk st)%positive as Hlt
        by (apply (ri_fresh Hinv); by eexists).
      exists w. split; [|done]. rewrite !lookup_insert_ne by lia. done.
  - (* watch_update *)
    destruct (watch_update B w events ctl_ok st) as [st1|] eqn:Hu;
      simpl in Hc; [|done].
    inversion Hc; subst; clear Hc. intros Hnd. split; [by apply Hrok'|].
    change (NoDup (freed_list (log st1))) in Hnd.
    apply watch_update_inv in Hu as (w0 & Hw0 & ->). simpl in Hnd.
    destruct (Hok Hnd) as [_ Hval]. intros q Hq Hnf.
    change (q ∈ watch_news (log st)) in Hq.
    change (q ∉ freed_list (log st)) in Hnf. simpl.
    destruct (Hval q Hq Hnf) as (wq & Hwq & Hd).
    destruct (decide (q = w)) as [->|Hne].
    + rewrite lookup_insert_eq. eexists. split; [done|].
      rewrite Hw0 in Hwq. by inversion Hwq; subst.
    + rewrite lookup_insert_ne by done. by exists wq.
  - (* watch_free *)
    destruct (watch_free B w ctl_ok st) as [st1|] eqn:Hf; simpl in Hc; [|done].
    inversion Hc; subst; clear Hc. intros Hnd. split; [by apply Hrok'|].
    apply watch_free_inv in Hf as (w0 & Hw0 & ->).
    change (NoDup (w :: freed_list (log st))) in Hnd.
    apply NoDup_cons in Hnd as [_ Hnd].
    destruct (Hok Hnd) as [_ Hval]. intros q Hq Hnf.
    change (q ∈ watch_news (log st)) in Hq.
    change (q ∉ w :: freed_list (log st)) in Hnf.
    apply not_elem_of_cons in Hnf as [Hne Hnf]. simpl.
    destruct (Hval q Hq Hnf) as (wq & Hwq & Hd).
    exists wq. by rewrite lookup_insert_ne.
Qed.

Lemma handles_ok_reap (st st' : State B) :
  handles_ok st -> reap B st = Some st' -> handles_ok st'.
Proof.
  intros Hok Hr Hnd.
  destruct (reap_log B st st' Hr) as (ps & Hl).
  rewrite Hl, freed_list_free in Hnd.
  destruct (Hok Hnd) as [Hinv Hval].
  split; [by eapply reap_inv_reap|].
  destruct (ri_chain Hinv) as (l & Hc & Hndl & Hiff).
  unfold reap in Hr.
  destruct (reap_from B (S (size (watches st))) (orphaned_watches st) st)
    as [st1|] eqn:Hr1; simpl in Hr; [|done].
  inversion Hr; subst; clear Hr.
  destruct (reap_from_chain B _ _ _ _ _ Hc Hndl Hr1) as (_ & Hout & _).
  simpl in Hl. intros q Hq Hnf. simpl in Hq, Hnf.
  rewrite Hl in Hq, Hnf.
  assert (watch_news (map LFree ps ++ log st) = watch_news (log st)) as Hwn
    by (clear; induction ps; simpl; done).
  rewrite Hwn in Hq. rewrite freed_list_free in Hnf.
  destruct (Hval q Hq Hnf) as (w & Hw & Hd). exists w. split; [|done].
  simpl. rewrite Hout; [done|].
  intros Hin. apply Hiff in Hin as (w' & Hw' & Hd'). congruence.
Qed.

Lemma handles_ok_reachable fd steps (st' : State B) :
  run_app B host steps (event_manager_init B fd) = Some st' -> handles_ok st'.
Proof.
  intros Hrun.
  eapply (run_app_keeps B host handles_ok); [..|apply handles_ok_init|exact Hrun].
  - intros c st st1. apply handles_ok_call.
  - intros st p w ev Hinv _ _. by apply handles_ok_emit.
  - intros st p d. by apply handles_ok_emit.
  - intros st p t Hinv _.
    eapply handles_ok_frame; [..|exact Hinv]; simpl; (done || lia).
  - intros st b. by apply handles_ok_emit.
  - intros st st1. apply handles_ok_reap.
  - intros st v Hinv.
    eapply handles_ok_frame; [..|exact Hinv]; simpl; (done || lia).
  - intros st Hinv.
    eapply handles_ok_frame; [| | | |apply handles_ok_emit; [|exact Hinv]];
      simpl; (done || lia).
Qed.

(** X14.  The event manager releases no watch of its own accord: in
    whatever state the application has brought a fresh manager, a watch
    that [watch_new] returned and that was not handed to [watch_free]
    is in memory and not tombstoned, whatever the loop dispatched and
    reaped meanwhile (provided no watch was handed to [watch_free]
    twice). *)
Theorem handles_stay_valid fd steps (st' : State B) q :
  run_app B host steps (event_manager_init B fd) = Some st' ->
  NoDup (freed_list (log st')) ->
  q ∈ watch_news (log st') -> q ∉ freed_list (log st') ->
  exists w, watches st' !! q = Some w /\ w_deleted w = false.
Proof.
  intros Hrun Hnd Hq Hnf.
  destruct (handles_ok_reachable fd steps st' Hrun Hnd) as [_ Hval].
  by apply Hval.
Qed.

End Handles.

Lemma handles_stay_valid_witness :
  exists w, watches free_state !! 1%positive = Some w /\ w_deleted w = false.
Proof.
  apply (handles_stay_valid Epoll.backend (busy Z) 3
           (free_calls ++ [AppLoop (B := Epoll.backend) [free_turn]])).
  - reflexivity.
  - apply NoDup_singleton.
  - apply elem_of_cons. right. apply elem_of_cons. by left.
  - intros H. apply list_elem_of_singleton in H. discriminate H.
Defined.

(** X15.  The epoll loop passes on readiness for reading and for
    writing only: an event that carries neither [EPOLLIN] nor
    [EPOLLOUT] (an error or a hang-up alone) invokes no callback and
    changes nothing. *)
Theorem epoll_other_events_ignored (host : Host Z) (e : Epoll.epoll_event)
  (st : State Epoll.backend) :
  Z.land (Epoll.events e) (Z.lor EPOLLIN EPOLLOUT) = 0 ->
  is_Some (watches st !! Epoll.data_ptr e) ->
  dispatch_event Epoll.backend host e st = Some st.
Proof.
  intros Hbits [w Hw]. rewrite Z.land_lor_distr_r in Hbits.
  apply Z.lor_eq_0_iff in Hbits as [Hin Hout].
  unfold dispatch_event.
  cbn [ev_error ev_udata ev_in ev_out Epoll.backend].
  rewrite Hw. cbn [mbind option_bind]. rewrite Hin, Hout.
  cbn [Z.eqb negb]. rewrite !andb_false_r. cbn [mbind option_bind].
  rewrite Hw. cbn [mbind option_bind]. by rewrite andb_false_r.
Qed.

Lemma epoll_other_events_ignored_witness :
  dispatch_event Epoll.backend (busy Z) hangup_event stop_state
  = Some stop_state.
Proof.
  apply (epoll_other_events_ignored (busy Z) hangup_event stop_state).
  - reflexivity.
  - eexists. reflexivity.
Defined.

Lemma earliest_from_none fuel (h : gmap ptr MHD_Timeout) :
  forall t l,
    walk_from fuel h t = Some l ->
    (forall p tm, p ∈ l -> h !! p = Some tm ->
       timerisset (trigger_time tm) = false) ->
    earliest_from fuel h t None = Some None.
Proof.
  induction fuel as [|fuel IH]; intros [p|] l Hw Hall; simpl in *; try done.
  destruct (h !! p) as [tm|] eqn:Hp; simpl in *; [|done].
  destruct (walk_from fuel h (t_next tm)) as [l'|] eqn:Hw'; simpl in Hw;
    [|done].
  inversion Hw; subst; clear Hw.
  rewrite (Hall p tm) by (done || apply elem_of_cons; by left). simpl.
  eapply IH; [exact Hw'|].
  intros q tq Hq. apply Hall. apply elem_of_cons. by right.
Qed.

(** X16.  A disarmed timeout is not waited for: when every timeout of
    the list has the zero instant (as after [timeout_update] with
    [NULL]), the scan finds no deadline, and the turn waits with the
    default budget of its backend. *)
Theorem disarmed_timeouts_not_awaited (B : Backend) (host : Host (budget_t B))
  tn (st : State B) l r :
  timeout_list st = Some l ->
  (forall p tm, p ∈ l -> timeouts st !! p = Some tm ->
     timerisset (trigger_time tm) = false) ->
  loop_turn B host tn st = Some r ->
  earliest B st = Some None /\
  LWait (b_budget B None (now_before tn)) ∈ log (turn_state r).
Proof.
  intros Hl Hall Ht.
  assert (earliest B st = Some None) as He
    by (unfold earliest; by eapply earliest_from_none).
  split; [done|].
  destruct (loop_turn_budget B host tn st r Ht) as (found & Hf & Hin).
  rewrite He in Hf. by inversion Hf; subst.
Qed.

Lemma disarmed_timeouts_not_awaited_witness :
  earliest Epoll.backend disarmed_state = Some None /\
  LWait (b_budget Epoll.backend None (now_before eintr_turn))
  ∈ log (turn_state disarmed_after).
Proof.
  apply (disarmed_timeouts_not_awaited Epoll.backend (quiet Z) eintr_turn
           disarmed_state [1%positive] disarmed_after).
  - reflexivity.
  - intros p tm Hp Hl. apply list_elem_of_singleton in Hp as ->.
    assert (Some tm = timeouts disarmed_state !! 1%positive) as Heq
      by (by symmetry).
    inversion Heq. reflexivity.
  - reflexivity.
Defined.

(** ** The budget of the wait of a turn *)

(** A turn waits once, with the budget computed from its scan. *)
Lemma loop_turn_waits_once (B : Backend) (host : Host (budget_t B)) tn
  (st : State B) r found :
  loop_turn B host tn st = Some r -> earliest B st = Some found ->
  wait_budgets (log (turn_state r))
  = b_budget B found (now_before tn) :: wait_budgets (log st).
Proof.
  unfold loop_turn. intros Ht He. rewrite He in Ht. simpl in Ht.
  set (b := b_budget B found (now_before tn)) in *.
  set (P := fun s : State B =>
              wait_budgets (log s) = b :: wait_budgets (log st)).
  assert (P (emit B (LWait b) st)) as HP1 by done.
  assert (forall c s s', P s -> exec_call B c s = Some s' -> P s') as Hcall.
  { intros c s s' Hs Hc. apply exec_call_log in Hc as (r0 & Hl).
    unfold P. by rewrite Hl. }
  destruct (wait tn) as [errno|events].
  - destruct (errno =? EINTR); inversion Ht; subst; exact HP1.
  - match type of Ht with (?m ≫= _) = _ => destruct m as [st2|] eqn:H2 end;
      simpl in Ht; [|done].
    destruct (dispatch B host events st2) as [st3|] eqn:H3; simpl in Ht; [|done].
    destruct (reap B st3) as [st4|] eqn:H4; simpl in Ht; [|done].
    inversion Ht; subst; clear Ht. simpl.
    apply reap_log in H4 as (ps & ->).
    assert (wait_budgets (map LFree ps ++ log st3) = wait_budgets (log st3))
      as -> by (clear; induction ps; simpl; done).
    eapply (dispatch_keeps B host P); [exact Hcall| | |exact H3].
    + intros s p w ev Hs _ _. exact Hs.
    + destruct events; [|by inversion H2; subst].
      eapply (sweep_from_keeps B host P); [exact Hcall| | |exact HP1|exact H2].
      * intros s p d Hs. exact Hs.
      * intros s p t Hs _. exact Hs.
Qed.

(** C3, as the code has it.  In every turn of the loop the scan finds
    the earliest armed timeout of the list walked from [timeout_head],
    and the turn waits once, with this budget: when no timeout of the
    list is armed, 10000 milliseconds for epoll and one second for
    kqueue; when the earliest armed timeout of the list is [t], the time
    that remains from the clock until [t], rounded down to milliseconds
    for epoll and exact for kqueue, and 0 when [t] has passed.  There
    is no cap at 10000.  The timevals are normalized (their
    microseconds lie between 0 and 999999) and the milliseconds fit an
    [int]. *)
Theorem wait_budget_is_remaining_time (kind : backend_kind)
  (host : Host (budget_t (backend_of kind))) tn
  (st : State (backend_of kind)) r l :
  loop_turn (backend_of kind) host tn st = Some r ->
  timeout_list st = Some l ->
  (forall p tm, p ∈ l -> timeouts st !! p = Some tm ->
     normalized (trigger_time tm) /\
     (usecs (trigger_time tm) - usecs (now_before tn)) / 1000 < 2147483648) ->
  normalized (now_before tn) ->
  exists found b,
    least_armed st l found /\
    wait_budgets (log (turn_state r)) = b :: wait_budgets (log st) /\
    budget_is kind found (now_before tn) b.
Proof.
  intros Ht Hl Hnorm Hnow.
  destruct (earliest (backend_of kind) st) as [found|] eqn:He;
    [|unfold loop_turn in Ht; rewrite He in Ht; done].
  exists found, (b_budget (backend_of kind) found (now_before tn)).
  assert (least_armed st l found) as Hleast.
  { unfold earliest in He. unfold timeout_list in Hl.
    pose proof (earliest_from_minimum _ _ _ _ _ _ He Hl) as H.
    destruct found as [tv|]; simpl.
    - destruct H as ([Hf|Hsrc] & Hmin & _); [done|]. by split.
    - by destruct H. }
  split; [done|]. split; [by eapply loop_turn_waits_once|].
  destruct found as [t|].
  - destruct Hleast as ((p & tm & Hp & Htm & <- & _) & _).
    destruct (Hnorm p tm Hp Htm) as [Ht' Hfit].
    destruct (budget_of_remaining_time (trigger_time tm) (now_before tn)
                Ht' Hnow Hfit) as (_ & _ & Hms & Hns).
    destruct kind;
      cbn [budget_is backend_of b_budget Kqueue.backend Epoll.backend];
      [done|].
    split; [done|]. unfold Kqueue.wait_ts.
    match goal with |- context [if ?c then _ else _] => destruct c end;
      cbn [Kqueue.ts_nsec]; [lia|].
    match goal with |- context [timersub ?a ?b] =>
      destruct (timersub_usecs a b Ht' Hnow) as [_ Hsub] end.
    unfold normalized in Hsub. lia.
  - destruct kind; simpl; done.
Qed.

Lemma wait_budget_is_remaining_time_witness :
  exists found b,
    least_armed budget_state [1%positive] found /\
    wait_budgets (log (turn_state budget_after))
    = b :: wait_budgets (log budget_state) /\
    budget_is EPOLL found (now_before budget_turn) b.
Proof.
  apply (wait_budget_is_remaining_time EPOLL (quiet Z) budget_turn
           budget_state budget_after [1%positive]).
  - reflexivity.
  - reflexivity.
  - intros p tm Hp Hl. apply list_elem_of_singleton in Hp as ->.
    assert (Some tm = timeouts budget_state !! 1%positive) as Heq
      by (by symmetry).
    inversion Heq. split; [unfold normalized; simpl; lia|].
    vm_compute. reflexivity.
  - unfold normalized; simpl; lia.
Defined.

(** C3 as the specification states it fails: with the only timeout due
    at second 30 and the clock at second 10, the epoll turn waits with
    20000 milliseconds, not with min(10000, 20000); and with no timeout
    at all, the kqueue turn waits with one second, not with ten. *)
Lemma wait_budget_is_not_capped :
  loop_turn Epoll.backend (quiet Z) capped_turn capped_state
  = Some capped_after /\
  earliest Epoll.backend capped_state = Some (Some (Timeval 30 0)) /\
  wait_budgets (log (turn_state capped_after)) = [20000] /\
  20000 <> Z.min 10000
             ((usecs (Timeval 30 0) - usecs (now_before capped_turn)) / 1000) /\
  loop_turn Kqueue.backend (quiet Kqueue.timespec) kqueue_turn
    (event_manager_init Kqueue.backend 3) = Some kqueue_after /\
  wait_budgets (log (turn_state kqueue_after)) = [Kqueue.MkTimespec 1 0] /\
  nanos (Kqueue.MkTimespec 1 0) <> 10000 * 1000000.
Proof.
  split; [reflexivity|]. split; [reflexivity|]. split; [reflexivity|].
  split; [vm_compute; discriminate|].
  split; [reflexivity|]. split; [reflexivity|].
  vm_compute. discriminate.
Qed.

(** The scan sees the list walked from [timeout_head] only.  The second
    [timeout_new] does not link its timeout behind the first, so the
    turn waits for the timeout of second 100, the only one of the list,
    and not for the one of second 5. *)
Lemma unlinked_timeout_not_awaited :
  timeout_list unlinked_state = Some [1%positive] /\
  trigger_time <$> timeouts unlinked_state !! 2%positive
  = Some (Timeval 5 0) /\
  loop_turn Epoll.backend (quiet Z) unlinked_turn unlinked_state
  = Some unlinked_after /\
  wait_budgets (log (turn_state unlinked_after)) = [99000].
Proof.
  split; [reflexivity|]. split; [reflexivity|]. split; reflexivity.
Qed.

(** ** Re-entry of the loop *)

Section Reentry.

Variable B : Backend.
Variable host : Host (budget_t B).

Lemma loop_from_closes script :
  forall (st st' : State B),
    loop_from B host script st = Some (Returned 0 st') ->
    em_fd st' = -1 /\ head (log st') = Some (LClose (em_fd st)).
Proof.
  induction script as [|tn script IH]; intros st st' Hl; simpl in Hl.
  - destruct (stop st); by inversion Hl; subst.
  - destruct (stop st); [by inversion Hl; subst|].
    destruct (loop_turn B host tn st) as [[st1|rc st1]|] eqn:Ht;
      simpl in Hl; [| |done].
    + apply handle_kept_by_turn in Ht. simpl in Ht. rewrite <- Ht.
      by apply IH.
    + apply loop_turn_return in Ht. inversion Hl; subst. done.
Qed.

(** Nothing that the application or the loop does gives a closed
    manager a descriptor again. *)
Lemma closed_stays_closed steps :
  forall (st st' : State B),
    em_fd st = -1 -> run_app B host steps st = Some st' -> em_fd st' = -1.
Proof.
  intros st st'.
  apply (run_app_keeps B host (fun s => em_fd s = -1)); try done.
  - intros c s s' Hs Hc. apply exec_call_control in Hc as [-> _]. done.
  - intros s s' Hs Hr. apply reap_fields in Hr as (_ & -> & _). done.
Qed.

(** C10.  Once [event_manager_loop] has returned 0, the descriptor that
    the backend had at entry has been closed and the manager's
    descriptor is -1; and on that manager every later call of
    [event_manager_loop], whatever the application called and
    registered in between and however often it tried before, returns -1
    at once: it clears [stop] and touches nothing else, so it neither
    waits nor dispatches. *)
Theorem loop_not_reenterable script (st st' : State B) :
  event_manager_loop B host script st = Some (Returned 0 st') ->
  0 <= em_fd st /\
  em_fd st' = (-1) /\
  head (log st') = Some (LClose (em_fd st)) /\
  forall steps st'' script',
    run_app B host steps st' = Some st'' ->
    event_manager_loop B host script' st'' =
    Some (Returned (-1) (set_stop B false st'')).
Proof.
  intros Hl. unfold event_manager_loop in Hl.
  destruct (em_fd (set_stop B false st) <? 0) eqn:Hneg; [by inversion Hl|].
  apply Z.ltb_ge in Hneg. simpl in Hneg.
  apply loop_from_closes in Hl as [Hfd Hclose]. simpl in Hclose.
  split; [done|]. split; [done|]. split; [done|].
  intros steps st'' script' Hrun.
  pose proof (closed_stays_closed steps st' st'' Hfd Hrun) as Hfd'.
  unfold event_manager_loop. simpl. by rewrite Hfd'.
Qed.

End Reentry.

Lemma loop_not_reenterable_witness :
  0 <= em_fd stop_state /\
  em_fd stopped_state = (-1) /\
  head (log stopped_state) = Some (LClose (em_fd stop_state)) /\
  forall steps st'' script',
    run_app Epoll.backend (busy Z) steps stopped_state = Some st'' ->
    event_manager_loop Epoll.backend (busy Z) script' st'' =
    Some (Returned (-1) (set_stop Epoll.backend false st'')).
Proof.
  apply (loop_not_reenterable Epoll.backend (busy Z) [stop_turn] stop_state).
  reflexivity.
Defined.
